(** * rank_run: one shell command per MPI rank

    A shallow embedding of [rank_run.c] and the properties of its
    specification.  C strings are lists of characters (the bytes before
    the terminating NUL of a buffer), the [commands] array is a list of
    rows updated by index, and the effects of [main] (output, [system],
    [MPI_Send], [MPI_Abort]) are collected in a trace by a small monad. *)

From Stdlib Require Import ZArith Ascii String DecimalNat DecimalString Lia.
From stdpp Require Import base option list.

Open Scope Z_scope.
Open Scope list_scope.

(** ** C strings *)

Abbreviation cstring := (list ascii).

Definition str (s : string) : cstring := list_ascii_of_string s.

Definition NUL : ascii := "000"%char.
Definition TAB : ascii := "009"%char.
Definition LF : ascii := "010"%char.
Definition CR : ascii := "013"%char.
Definition SPACE : ascii := " "%char.
Definition HASH : ascii := "#"%char.
Definition STAR : ascii := "*"%char.

(** [#define MAX_LINE 5000] and [#define MAX_RANKS 5000]. *)
Definition MAX_LINE : nat := 5000.
Definition MAX_RANKS : nat := 5000.

(** The content of a buffer read as a C string: the bytes before the
    first NUL. *)
Fixpoint cstr (buf : list ascii) : cstring :=
  match buf with
  | [] => []
  | c :: buf' => if Ascii.eqb c NUL then [] else c :: cstr buf'
  end.

(** What [snprintf(dst, size, ...)] leaves in [dst] when the formatted
    text is [s]: at most [size - 1] bytes of it. *)
Definition snprintf (size : nat) (s : cstring) : cstring :=
  take (size - 1) s.

(** Conversion of a [size_t] value to [int] (two's complement, 32 bits). *)
Definition INT_MAX : Z := 2147483647.

Definition to_int (z : Z) : Z :=
  let m := z mod 4294967296 in
  if m <=? INT_MAX then m else m - 4294967296.

(** ** trim *)

(** The whitespace test of both loops: space, tab, LF or CR. *)
Definition is_ws (c : ascii) : bool :=
  Ascii.eqb c SPACE || Ascii.eqb c TAB || Ascii.eqb c LF || Ascii.eqb c CR.

(** The first loop of trim, which advances [p] while it points to a
    whitespace byte: the string [p] points to when the loop ends. *)
Fixpoint skip_ws (p : cstring) : cstring :=
  match p with
  | [] => []
  | c :: p' => if is_ws c then skip_ws p' else p
  end.

(** The second loop of trim, from [i = strlen(s)-1] downwards while
    [i >= 0] and [s[i]] is whitespace, with [n = i + 1]: writing NUL at
    index [i] cuts the string to its first [i] bytes. *)
Fixpoint chop_ws (n : nat) (s : cstring) : cstring :=
  match n with
  | O => s
  | S i =>
      match s !! i with
      | Some c => if is_ws c then chop_ws i (take i s) else s
      | None => s
      end
  end.

Definition trim (s : cstring) : cstring :=
  let p := skip_ws s in
  (* memmove(s, p, strlen(p)+1) *)
  let s := p in
  (* int i = strlen(s)-1 *)
  let i := to_int (Z.of_nat (length s) - 1) in
  chop_ws (Z.to_nat (i + 1)) s.

(** ** The C library as the program uses it *)

(** [strchr(s, c)]: the offset of the first [c] in [s], if any. *)
Fixpoint strchr (s : cstring) (c : ascii) : option nat :=
  match s with
  | [] => None
  | a :: s' => if Ascii.eqb a c then Some O else S <$> strchr s' c
  end.

(** The conversion [%d] of a rank (ranks are not negative). *)
Definition decimal (n : nat) : cstring :=
  str (NilZero.string_of_uint (Nat.to_uint n)).

(** The bytes one call of [fgets] takes from the stream: at most [room]
    of them, up to and including the first LF; and the stream left. *)
Fixpoint read_line (room : nat) (fp : list ascii) : list ascii * list ascii :=
  match room, fp with
  | S room', c :: fp' =>
      if Ascii.eqb c LF then ([c], fp')
      else let '(l, rest) := read_line room' fp' in (c :: l, rest)
  | _, _ => ([], fp)
  end.

(** [fgets(buf, n, fp)]: [None] is the NULL returned at end of file,
    which leaves [buf] as it was. *)
Definition fgets (n : nat) (fp : list ascii) : option (list ascii * list ascii) :=
  match fp with
  | [] => None
  | _ :: _ => Some (read_line (n - 1) fp)
  end.

(** The macros of [<sys/wait.h>] on the status [system] returns. *)
Definition WTERMSIG (status : Z) : Z := Z.land status 127.
Definition WIFEXITED (status : Z) : bool := WTERMSIG status =? 0.
Definition WEXITSTATUS (status : Z) : Z := Z.shiftr (Z.land status 65280) 8.

(** The status of a child that ended with code [ret] (and signal 0), or
    was killed by signal [sig]: [__W_EXITCODE] of the same header. *)
Definition W_EXITCODE (ret sig : Z) : Z := Z.lor (Z.shiftl ret 8) sig.

(** What one process sees of its surroundings. *)
Record world := World {
  access_F_OK : cstring → bool;          (* access(path, F_OK) == 0 *)
  fopen : cstring → option (list ascii); (* the bytes of the file; None for NULL *)
  system : cstring → Z                   (* the status system(cmd) returns *)
}.

(** ** Traces and outcomes *)

Inductive event :=
| Usage (argv0 : cstring)                         (* stderr, line 41 *)
| ExecutingScript (rank : nat) (scriptfile : cstring)   (* stdout, line 57 *)
| ScriptNotFound (scriptfile : cstring)           (* stdout, line 70 *)
| FileNotFound (arg : cstring)                    (* stderr, lines 79-80 *)
| ExtraIgnored (num_commands size : nat)          (* stdout, line 95 *)
| ExecutingCommand (rank : nat) (mycmd : cstring) (* stdout, line 105 *)
| CommandFailed (rank : nat) (exitcode : Z) (mycmd : cstring)  (* stderr *)
| Fgets (row : nat) (got : option (list ascii))   (* fgets(commands[row], ...) *)
| System (cmd : cstring)                          (* system(cmd) *)
| Send (dest : nat) (buf : cstring)               (* MPI_Send(buf, ..., dest, ...) *)
| Recv (buf : cstring).                           (* MPI_Recv(mycmd, ..., 0, ...) *)

Inductive outcome :=
| Return (code : Z)        (* return code; after MPI_Finalize *)
| Abort (code : Z)         (* MPI_Abort(MPI_COMM_WORLD, code) *)
| OutOfBounds (row : nat)  (* commands[row] accessed with MAX_RANKS <= row *)
| Waiting                  (* blocked in MPI_Recv, no message sent *)
| OutOfFuel.               (* the loop bound of the model was too small *)

Inductive result (A : Type) :=
| Next (a : A)
| Stop (o : outcome).
Arguments Next {A} a.
Arguments Stop {A} o.

(** A computation: the events so far, and a value or the end of the
    process. *)
Definition prog (A : Type) : Type := list event * result A.

#[global] Instance prog_ret : MRet prog := λ A a, ([], Next a).

#[global] Instance prog_bind : MBind prog := λ A B k m,
  match m with
  | (t, Next a) => let '(t', r) := k a in (t ++ t', r)
  | (t, Stop o) => (t, Stop o)
  end.

Definition emit (e : event) : prog unit := ([e], Next tt).
Definition stop {A} (o : outcome) : prog A := ([], Stop o).

Definition first_byte (s : cstring) : ascii :=
  match s with
  | [] => NUL
  | c :: _ => c
  end.

(** Line 85: the row is neither empty nor a comment. *)
Definition qualifies (row : cstring) : bool :=
  let c := first_byte row in
  negb (Ascii.eqb c NUL) && negb (Ascii.eqb c HASH).

(** ** main *)

(** Lines 63-64 and 109-110: [int exitcode = -1;
    if (WIFEXITED(ret)) exitcode = WEXITSTATUS(ret);]. *)
Definition exitcode (ret : Z) : Z :=
  if WIFEXITED ret then WEXITSTATUS ret else -1.

(** Lines 61-68 and 107-114: run the command, abort the group when the
    status is not 0. *)
Definition run_system (w : world) (rank : nat) (mycmd : cstring) : prog unit :=
  emit (System mycmd) ;;
  let ret := system w mycmd in
  if decide (ret ≠ 0) then
    emit (CommandFailed rank (exitcode ret) mycmd) ;;
    stop (Abort (exitcode ret))
  else mret tt.

(** Lines 50-72: the argument has a star at offset [star]. *)
Definition resolve_pattern (arg : cstring) (star : nat) (rank : nat) : cstring :=
  snprintf MAX_LINE (take star arg ++ decimal rank ++ drop (S star) arg).

Definition run_script (w : world) (arg : cstring) (star : nat) (rank : nat)
  : prog unit :=
  let scriptfile := resolve_pattern arg star rank in
  if access_F_OK w scriptfile then
    emit (ExecutingScript rank scriptfile) ;;
    let mycmd := snprintf MAX_LINE (str "bash " ++ scriptfile) in
    run_system w rank mycmd
  else
    emit (ScriptNotFound scriptfile).

(** Lines 83-87: the loop of rank 0 over the file.  [fgets] is called
    before [num_commands < MAX_RANKS] is tested, so with
    [num_commands = MAX_RANKS] and input left it writes past the last row. *)
Fixpoint read_commands (fuel : nat) (commands : list cstring)
    (num_commands : nat) (fp : list ascii) : prog (list cstring * nat) :=
  match fuel with
  | O => stop OutOfFuel
  | S fuel' =>
      match fgets MAX_LINE fp with
      | None =>
          emit (Fgets num_commands None) ;;
          mret (commands, num_commands)
      | Some (line, fp') =>
          emit (Fgets num_commands (Some line)) ;;
          if decide (MAX_RANKS ≤ num_commands)%nat then
            stop (OutOfBounds num_commands)
          else
            let commands := <[num_commands := cstr line]> commands in
            let commands := alter trim num_commands commands in
            let num_commands :=
              if qualifies (commands !!! num_commands)
              then S num_commands else num_commands in
            read_commands fuel' commands num_commands fp'
      end
  end.

(** Lines 97-99: [for (i=1; i<size; i++) MPI_Send(commands[i], ...)],
    over the ranks still to be served. *)
Fixpoint send_commands (commands : list cstring) (ranks : list nat)
  : prog unit :=
  match ranks with
  | [] => mret tt
  | i :: ranks' =>
      match commands !! i with
      | Some row => emit (Send i row) ;; send_commands commands ranks'
      | None => stop (OutOfBounds i)
      end
  end.

(** Lines 75-102: what [mycmd] holds when the distribution is done.
    [inbox] is the message rank 0 sent to this rank, if it sent one. *)
Definition distribute (w : world) (arg : cstring) (rank size : nat)
    (inbox : option cstring) : prog cstring :=
  let commands := replicate MAX_RANKS [] in
  let num_commands := O in
  '(commands, num_commands) ←
    (if decide (rank = O) then
       match fopen w arg with
       | None => emit (FileNotFound arg) ;; stop (Abort 1)
       | Some fp => read_commands (S (length fp)) commands num_commands fp
       end
     else mret (commands, num_commands));
  let mycmd := [] in
  if decide (rank = O) then
    let mycmd := if decide (0 < num_commands)%nat then commands !!! O else mycmd in
    (if decide (size < num_commands)%nat
     then emit (ExtraIgnored num_commands size) else mret tt) ;;
    send_commands commands (seq 1 (size - 1)) ;;
    mret mycmd
  else
    match inbox with
    | Some buf => emit (Recv buf) ;; mret buf
    | None => stop Waiting
    end.

(** Lines 74-115. *)
Definition run_roster (w : world) (arg : cstring) (rank size : nat)
    (inbox : option cstring) : prog unit :=
  mycmd ← distribute w arg rank size inbox;
  if negb (Ascii.eqb (first_byte mycmd) NUL) then
    emit (ExecutingCommand rank mycmd) ;;
    run_system w rank mycmd
  else mret tt.

Definition main_body (w : world) (argv : list cstring) (rank size : nat)
    (inbox : option cstring) : prog unit :=
  if decide (length argv ≠ 2%nat) then
    (if decide (rank = O) then emit (Usage (argv !!! O)) else mret tt) ;;
    stop (Return 1)
  else
    let arg := argv !!! 1%nat in
    (match strchr arg STAR with
     | Some star => run_script w arg star rank
     | None => run_roster w arg rank size inbox
     end) ;;
    stop (Return 0).

(** The trace of one process and how it ends. *)
Definition main (w : world) (argv : list cstring) (rank size : nat)
    (inbox : option cstring) : list event * outcome :=
  match main_body w argv rank size inbox with
  | (t, Stop o) => (t, o)
  | (t, Next _) => (t, Return 0)
  end.

(** ** The group *)

(** The message rank 0 addressed to [rank], read off its trace. *)
Fixpoint sent_to (rank : nat) (t : list event) : option cstring :=
  match t with
  | [] => None
  | Send dest buf :: t' =>
      if decide (dest = rank) then Some buf else sent_to rank t'
  | _ :: t' => sent_to rank t'
  end.

(** Every member runs [main]; a member other than rank 0 receives what
    rank 0 sent to it. *)
Definition run_member (w : nat → world) (argv : list cstring) (size rank : nat)
  : list event * outcome :=
  let inbox :=
    if decide (rank = O) then None
    else sent_to rank (main (w O) argv O size None).1 in
  main (w rank) argv rank size inbox.

Definition run_group (w : nat → world) (argv : list cstring) (size : nat)
  : list (list event * outcome) :=
  run_member w argv size <$> seq 0 size.

(** The assignment of a rank in roster mode: its [mycmd] after the
    distribution, if the member gets that far. *)
Definition assignment (w : nat → world) (arg : cstring) (size rank : nat)
  : option cstring :=
  let inbox :=
    if decide (rank = O) then None
    else sent_to rank (distribute (w O) arg O size None).1 in
  match (distribute (w rank) arg rank size inbox).2 with
  | Next mycmd => Some mycmd
  | Stop _ => None
  end.

(** The status the MPI runtime reports for the group: the code of a
    member that called [MPI_Abort], which ends every member, or the code
    all members returned. *)
Inductive group_status (outs : list outcome) : Z → Prop :=
| group_aborted (rank : nat) (code : Z) :
    outs !! rank = Some (Abort code) → group_status outs code
| group_returned (code : Z) :
    outs ≠ [] → Forall (λ o, o = Return code) outs → group_status outs code.

(** ** The roster file as the specification reads it *)

(** The lines of a text, without their LF. *)
Fixpoint lines (fp : list ascii) : list (list ascii) :=
  match fp with
  | [] => []
  | c :: fp' =>
      if Ascii.eqb c LF then [] :: lines fp'
      else match lines fp' with
           | [] => [[c]]
           | l :: ls => (c :: l) :: ls
           end
  end.

(** A trimmed line is blank when nothing is left of it, a comment when
    it starts with [#], and valid otherwise. *)
Definition is_comment (t : cstring) : bool := Ascii.eqb (first_byte t) HASH.
Definition is_blank (t : cstring) : bool :=
  match t with [] => true | _ :: _ => false end.
Definition is_valid (t : cstring) : bool := negb (is_blank t) && negb (is_comment t).

Definition valid_lines (fp : list ascii) : list cstring :=
  filter (λ t, is_valid t = true) (trim <$> lines fp).

(** The file ends with a valid line, or with a comment line. *)
Definition ends_with_valid (fp : list ascii) : Prop :=
  ∃ l, last (lines fp) = Some l ∧ is_valid (trim l) = true.
Definition ends_with_comment (fp : list ascii) : Prop :=
  ∃ l, last (lines fp) = Some l ∧ is_comment (trim l) = true.

(** A text file whose lines fit the line buffer with their LF. *)
Definition text_file (fp : list ascii) : Prop :=
  (NUL ∉ fp) ∧ Forall (λ l, (length l + 2 ≤ MAX_LINE)%nat) (lines fp).

(** A text file whose lines one call of [fgets] takes whole: no NUL
    byte, and no line of more than MAX_LINE - 1 bytes before its LF. *)
Definition roster_text (fp : list ascii) : Prop :=
  (NUL ∉ fp) ∧ Forall (λ l, (length l < MAX_LINE)%nat) (lines fp).

(** The last line has MAX_LINE - 1 bytes and an LF: the line fills the
    buffer, and its LF is left for one more call of [fgets]. *)
Definition lone_LF (fp : list ascii) : Prop :=
  ∃ l, last (lines fp) = Some l
       ∧ length l = (MAX_LINE - 1)%nat ∧ last fp = Some LF.

(** ** The loop of rank 0, line by line *)

(** The rows the loop of lines 83-87 keeps of a list of lines. *)
Definition rows (ls : list (list ascii)) : list cstring :=
  filter (λ t, qualifies t = true) (trim <$> ls).

(** The same loop, seen line by line on a text file. *)
Fixpoint store_lines (ls : list (list ascii)) (commands : list cstring)
    (num_commands : nat) : result (list cstring * nat) :=
  match ls with
  | [] => Next (commands, num_commands)
  | l :: ls' =>
      if decide (MAX_RANKS ≤ num_commands)%nat then
        Stop (OutOfBounds num_commands)
      else
        store_lines ls' (<[num_commands := trim l]> commands)
          (if qualifies (trim l) then S num_commands else num_commands)
  end.

Definition is_fgets (e : event) : bool :=
  match e with
  | Fgets _ _ => true
  | _ => false
  end.

(** A decision procedure for [text_file]. *)
Definition text_fileb (fp : list ascii) : bool :=
  forallb (λ c, negb (Ascii.eqb c NUL)) fp
  && forallb (λ l, (length l + 2 <=? MAX_LINE)%nat) (lines fp).

(** A decision procedure for [roster_text]. *)
Definition roster_textb (fp : list ascii) : bool :=
  forallb (λ c, negb (Ascii.eqb c NUL)) fp
  && forallb (λ l, (length l <? MAX_LINE)%nat) (lines fp).

(** What the calls of [fgets] in the loop of lines 83-87 return, one
    after the other, until the end of the file. *)
Fixpoint fgets_all (fuel : nat) (fp : list ascii) : list (list ascii) :=
  match fuel with
  | O => []
  | S fuel' =>
      match fgets MAX_LINE fp with
      | None => []
      | Some (line, fp') => line :: fgets_all fuel' fp'
      end
  end.

(** ** Processes and files of the examples *)

(** A process that finds [content] under every file name and no script,
    and whose commands end with the status [status] gives them. *)
Definition roster_world (content : list ascii) (status : cstring → Z) : world :=
  {| access_F_OK := λ _, false;
     fopen := λ _, Some content;
     system := status |}.

(** A process that finds no file at all. *)
Definition empty_world : world :=
  {| access_F_OK := λ _, false;
     fopen := λ _, None;
     system := λ _, 0 |}.

Definition succeed : cstring → Z := λ _, 0.

(** [exit 7] ends with code 7, that is with the status [7 * 256]. *)
Definition exit_seven : cstring → Z := λ _, 1792.

Definition argv_cmdfile : list cstring := [str "rank_run.x"; str "cmdfile"].
Definition argv_pattern : list cstring := [str "rank_run.x"; str "job_*.sh"].

(** The roster of the first end-to-end scenario of the specification. *)
Definition scenario_A : list ascii :=
  str "echo A" ++ LF :: str "# comment" ++ LF :: LF :: str "echo B".

(** A roster whose last line is a comment. *)
Definition trailing_comment : list ascii :=
  str "echo A" ++ LF :: str "# done" ++ [LF].

Definition two_lines : list ascii := str "a" ++ LF :: str "b" ++ [LF].

(** [n] lines, each of them the command [a]. *)
Definition flood (n : nat) : list ascii := mjoin (replicate n [ascii_of_nat 97; LF]).

(** A line of MAX_LINE bytes: one more than a call of [fgets] takes. *)
Definition long_line : list ascii :=
  replicate (MAX_LINE - 1) (ascii_of_nat 97) ++ str "b".

(** A line of MAX_LINE - 1 bytes, which one call of [fgets] takes
    without its LF, and a second line. *)
Definition full_line : list ascii :=
  replicate (MAX_LINE - 1) (ascii_of_nat 97) ++ LF :: str "b" ++ [LF].

(** A pattern of MAX_LINE bytes. *)
Definition long_pattern : cstring :=
  replicate (MAX_LINE - 1) (ascii_of_nat 97) ++ [STAR].

(** ** Reading a trace *)

(** The lines [fgets] stored, in the order of the calls. *)
Fixpoint chunks_of (t : list event) : list (list ascii) :=
  match t with
  | [] => []
  | Fgets _ (Some line) :: t' => line :: chunks_of t'
  | _ :: t' => chunks_of t'
  end.

(** The ranks messages were sent to, in the order of the calls. *)
Fixpoint dests_of (t : list event) : list nat :=
  match t with
  | [] => []
  | Send dest _ :: t' => dest :: dests_of t'
  | _ :: t' => dests_of t'
  end.

(** A row as the loop leaves it: a C string that fits its buffer with
    the final NUL and that trim does not change. *)
Definition row_ok (row : cstring) : Prop :=
  (length row < MAX_LINE)%nat ∧ (NUL ∉ row) ∧ trim row = row.

(** * Properties *)

Example trim_echo : trim (str "  echo A
") = str "echo A".
Proof. reflexivity. Qed.

Example trim_blank : trim (str "   	 ") = [].
Proof. reflexivity. Qed.

(** ** Properties of trim *)

Section TrimFacts.

Lemma skip_ws_split (s : cstring) :
  ∃ l, s = l ++ skip_ws s ∧ Forall (λ c, is_ws c = true) l.
Proof.
  induction s as [|c s [l [Hs Hl]]]; simpl.
  - exists []. split; [done | constructor].
  - destruct (is_ws c) eqn:Hc.
    + exists (c :: l). split; [simpl; congruence | by constructor].
    + exists []. split; [done | constructor].
Qed.

Lemma skip_ws_head (s : cstring) (c : ascii) :
  head (skip_ws s) = Some c → is_ws c = false.
Proof.
  induction s as [|a s IH]; simpl; [done |].
  destruct (is_ws a) eqn:Ha; [done |].
  simpl. congruence.
Qed.

Lemma skip_ws_nil (s : cstring) :
  skip_ws s = [] ↔ Forall (λ c, is_ws c = true) s.
Proof.
  induction s as [|a s IH]; simpl.
  - split; [constructor | done].
  - destruct (is_ws a) eqn:Ha.
    + rewrite IH. split; [by constructor | by inversion 1].
    + split; [done |]. inversion 1; congruence.
Qed.

Lemma chop_ws_snoc (s : cstring) (c : ascii) :
  chop_ws (S (length s)) (s ++ [c]) =
  if is_ws c then chop_ws (length s) s else s ++ [c].
Proof.
  simpl. rewrite lookup_app_r by lia.
  replace (length s - length s)%nat with 0%nat by lia. simpl.
  by rewrite take_app_length.
Qed.

Lemma chop_ws_split (s : cstring) :
  ∃ r, s = chop_ws (length s) s ++ r ∧ Forall (λ c, is_ws c = true) r.
Proof.
  induction s as [|c s [r [Hs Hr]]] using rev_ind.
  - exists []. split; [done | constructor].
  - rewrite length_app. simpl.
    replace (length s + 1)%nat with (S (length s)) by lia.
    rewrite chop_ws_snoc. destruct (is_ws c) eqn:Hc.
    + exists (r ++ [c]). split.
      * rewrite app_assoc. by rewrite <- Hs.
      * apply Forall_app. split; [done |]. by repeat constructor.
    + exists []. split; [by rewrite app_nil_r | constructor].
Qed.

Lemma chop_ws_last (s : cstring) (c : ascii) :
  last (chop_ws (length s) s) = Some c → is_ws c = false.
Proof.
  induction s as [|a s IH] using rev_ind; [done |].
  rewrite length_app. simpl.
  replace (length s + 1)%nat with (S (length s)) by lia.
  rewrite chop_ws_snoc. destruct (is_ws a) eqn:Ha; [done |].
  rewrite last_snoc. congruence.
Qed.

Lemma chop_ws_head (s : cstring) (c : ascii) :
  head s = Some c → is_ws c = false →
  head (chop_ws (length s) s) = Some c.
Proof.
  induction s as [|a s IH] using rev_ind; [done |].
  intros Hhd Hc. rewrite length_app. simpl.
  replace (length s + 1)%nat with (S (length s)) by lia.
  rewrite chop_ws_snoc. destruct (is_ws a) eqn:Ha; [| done].
  destruct s as [|b s]; simpl in *; [congruence |].
  apply IH; done.
Qed.

Lemma chop_ws_nil (s : cstring) :
  chop_ws (length s) s = [] → Forall (λ c, is_ws c = true) s.
Proof.
  induction s as [|a s IH] using rev_ind; [constructor |].
  rewrite length_app. simpl.
  replace (length s + 1)%nat with (S (length s)) by lia.
  rewrite chop_ws_snoc. destruct (is_ws a) eqn:Ha.
  - intros H. apply Forall_app. split; [by apply IH | by repeat constructor].
  - intros H. by destruct s.
Qed.

(** The index of the last byte fits [int] for every string that fits
    a buffer addressable by [int]. *)
Lemma trim_index (s : cstring) :
  Z.of_nat (length s) <= INT_MAX →
  Z.to_nat (to_int (Z.of_nat (length s) - 1) + 1) = length s.
Proof.
  intros Hlen. unfold to_int, INT_MAX in *.
  destruct (decide (length s = 0%nat)) as [-> | Hne]; [done |].
  rewrite Z.mod_small by lia.
  destruct (Z.leb_spec (Z.of_nat (length s) - 1) 2147483647); lia.
Qed.

Lemma skip_ws_length (s : cstring) : (length (skip_ws s) ≤ length s)%nat.
Proof.
  induction s as [|a s IH]; simpl; [lia |].
  destruct (is_ws a); simpl; lia.
Qed.

Lemma trim_unfold (s : cstring) :
  Z.of_nat (length s) <= INT_MAX →
  trim s = chop_ws (length (skip_ws s)) (skip_ws s).
Proof.
  intros Hlen. unfold trim. rewrite trim_index; [done |].
  pose proof (skip_ws_length s). lia.
Qed.

Lemma trim_split (s : cstring) :
  Z.of_nat (length s) <= INT_MAX →
  ∃ l r, s = l ++ trim s ++ r
         ∧ Forall (λ c, is_ws c = true) l
         ∧ Forall (λ c, is_ws c = true) r.
Proof.
  intros Hlen. rewrite (trim_unfold s Hlen).
  destruct (skip_ws_split s) as [l [Hs Hl]].
  destruct (chop_ws_split (skip_ws s)) as [r [Hp Hr]].
  exists l, r. split; [| done]. by rewrite <- Hp.
Qed.

End TrimFacts.

(** C9.  Trim splits its argument as [l ++ trim s ++ r] where [l] and [r]
    consist of spaces, tabs, LF and CR only and the result neither starts
    nor ends with such a character, so [l] and [r] are the maximal runs
    and the interior is kept verbatim; the result is empty exactly when
    the argument consists of such characters only. *)
Theorem trim_spec (s : cstring) :
  Z.of_nat (length s) <= INT_MAX →
  (∃ l r, s = l ++ trim s ++ r
          ∧ Forall (λ c, is_ws c = true) l
          ∧ Forall (λ c, is_ws c = true) r)
  ∧ (∀ c, head (trim s) = Some c → is_ws c = false)
  ∧ (∀ c, last (trim s) = Some c → is_ws c = false)
  ∧ (trim s = [] ↔ Forall (λ c, is_ws c = true) s).
Proof.
  intros Hlen. split; [by apply trim_split |].
  rewrite (trim_unfold s Hlen).
  destruct (skip_ws_split s) as [l [Hs Hl]].
  split; [| split].
  - intros c Hc. destruct (skip_ws s) as [|a p] eqn:Hskip; [done |].
    assert (is_ws a = false) as Ha.
    { apply (skip_ws_head s). by rewrite Hskip. }
    rewrite (chop_ws_head (a :: p) a eq_refl Ha) in Hc. congruence.
  - apply chop_ws_last.
  - split.
    + intros Hnil. rewrite Hs. apply Forall_app. split; [done |].
      by apply chop_ws_nil.
    + intros Hall. apply skip_ws_nil in Hall. by rewrite Hall.
Qed.

Lemma trim_spec_witness :
  Z.of_nat (length (str "  echo A ")) <= INT_MAX
  ∧ (trim (str "  echo A ") = [] ↔ Forall (λ c, is_ws c = true) (str "  echo A ")).
Proof.
  assert (Z.of_nat (length (str "  echo A ")) <= INT_MAX) as Hlen
    by (vm_compute; discriminate).
  split; [exact Hlen |].
  exact (proj2 (proj2 (proj2 (trim_spec (str "  echo A ") Hlen)))).
Defined.

(** ** The monad *)

Section Monad.

Lemma bind_emit {A} (e : event) (m : prog A) :
  (emit e ;; m) = (e :: m.1, m.2).
Proof. by destruct m as [t r]. Qed.

Lemma bind_emit_fst {A} (e : event) (m : prog A) :
  (emit e ;; m).1 = e :: m.1.
Proof. by destruct m as [t r]. Qed.

Lemma bind_emit_snd {A} (e : event) (m : prog A) :
  (emit e ;; m).2 = m.2.
Proof. by destruct m as [t r]. Qed.

Lemma bind_emit_inv {A} (e : event) (m : prog A) t (r : result A) :
  (emit e ;; m) = (t, r) → ∃ t', t = e :: t' ∧ m = (t', r).
Proof.
  destruct m as [t' r']. intros [= <- <-]. by exists t'.
Qed.

Lemma bind_fst_app {A B} (m : prog A) (k : A → prog B) :
  ∃ t, (m ≫= k).1 = m.1 ++ t.
Proof.
  destruct m as [t [a | o]]; simpl.
  - destruct (k a) as [t' r]. by exists t'.
  - exists []. by rewrite app_nil_r.
Qed.

Lemma bind_next {A B} (t : list event) (a : A) (k : A → prog B) :
  ((t, Next a) : prog A) ≫= k = (t ++ (k a).1, (k a).2).
Proof. simpl. by destruct (k a). Qed.

Lemma bind_stop {A B} (t : list event) (o : outcome) (k : A → prog B) :
  ((t, Stop o) : prog A) ≫= k = (t, Stop o).
Proof. done. Qed.

Lemma bind_mret {A B} (a : A) (k : A → prog B) : mret a ≫= k = k a.
Proof. unfold mret, prog_ret. simpl. by destruct (k a). Qed.

End Monad.

(** ** Arithmetic of the two limits *)

Lemma MAX_LINE_eq : MAX_LINE = 5000%nat.
Proof. reflexivity. Qed.

Lemma MAX_RANKS_eq : MAX_RANKS = 5000%nat.
Proof. reflexivity. Qed.

Lemma line_fits (n : nat) :
  (n + 2 ≤ MAX_LINE)%nat → (n < MAX_LINE - 1)%nat ∧ Z.of_nat (S n) <= INT_MAX.
Proof. rewrite MAX_LINE_eq. unfold INT_MAX. lia. Qed.

(** From here on the two limits are used through these lemmas only. *)
#[global] Opaque MAX_LINE MAX_RANKS.

(** ** fgets on a text file *)

Section Lines.

Lemma lines_nil (fp : list ascii) : lines fp = [] → fp = [].
Proof.
  destruct fp as [|c fp]; [done |]. simpl.
  destruct (Ascii.eqb c LF); [done |]. by destruct (lines fp).
Qed.

Lemma cstr_id (s : list ascii) : NUL ∉ s → cstr s = s.
Proof.
  induction s as [|c s IH]; [done |]. intros Hnul.
  apply not_elem_of_cons in Hnul as [Hc Hs]. simpl.
  destruct (Ascii.eqb_spec c NUL) as [-> | _]; [done |].
  by rewrite IH.
Qed.

(** One call of [fgets] takes the first line, with its LF if it has
    one, when the line fits. *)
Lemma read_line_lines (fp : list ascii) :
  ∀ room l ls,
    lines fp = l :: ls → (length l < room)%nat →
    ∃ chunk rest,
      read_line room fp = (chunk, rest)
      ∧ fp = chunk ++ rest
      ∧ lines rest = ls
      ∧ (chunk = l ++ [LF] ∨ chunk = l).
Proof.
  induction fp as [|c fp IH]; intros room l ls Hl Hroom; [done |].
  destruct room as [|room]; [lia |]. simpl in *.
  destruct (Ascii.eqb_spec c LF) as [-> | Hc].
  - injection Hl as <- <-. exists [LF], fp. auto.
  - destruct (lines fp) as [|l' ls'] eqn:Hfp.
    + injection Hl as <- <-. apply lines_nil in Hfp as ->.
      exists [c], []. destruct room; auto.
    + injection Hl as <- <-. simpl in Hroom.
      destruct (IH room l' ls' eq_refl) as (chunk & rest & -> & -> & Hrest & Hchunk);
        [lia |].
      exists (c :: chunk), rest. repeat split; [done |].
      destruct Hchunk as [-> | ->]; auto.
Qed.

Lemma skip_ws_snoc (s : cstring) (c : ascii) :
  is_ws c = true →
  skip_ws (s ++ [c]) = match skip_ws s with [] => [] | _ :: _ => skip_ws s ++ [c] end.
Proof.
  intros Hc. induction s as [|a s IH]; simpl.
  - by rewrite Hc.
  - destruct (is_ws a); [done | done].
Qed.

Lemma trim_snoc (s : cstring) (c : ascii) :
  is_ws c = true → Z.of_nat (S (length s)) <= INT_MAX →
  trim (s ++ [c]) = trim s.
Proof.
  intros Hc Hlen. rewrite !trim_unfold.
  - rewrite (skip_ws_snoc s c Hc). destruct (skip_ws s) as [|a p]; [done |].
    generalize (a :: p). intros q. rewrite length_app.
    replace (length q + length [c])%nat with (S (length q)) by (simpl; lia).
    rewrite chop_ws_snoc. by rewrite Hc.
  - lia.
  - rewrite length_app. simpl. lia.
Qed.

Lemma is_ws_LF : is_ws LF = true.
Proof. reflexivity. Qed.

(** On a text file [fgets] succeeds until the end of the file, each call
    storing one line, which trims to the trimmed line. *)
Lemma fgets_text (fp : list ascii) :
  text_file fp → fp ≠ [] →
  ∃ l ls chunk rest,
    lines fp = l :: ls
    ∧ fgets MAX_LINE fp = Some (chunk, rest)
    ∧ trim (cstr chunk) = trim l
    ∧ lines rest = ls
    ∧ text_file rest
    ∧ (length rest < length fp)%nat.
Proof.
  intros [Hnul Hfit] Hne.
  destruct (lines fp) as [|l ls] eqn:Hlines; [by apply lines_nil in Hlines |].
  apply Forall_cons in Hfit as [Hl Hls].
  destruct (line_fits _ Hl) as [Hroom Hint].
  destruct (read_line_lines fp _ l ls Hlines Hroom)
    as (chunk & rest & Hread & Hfp & Hrest & Hchunk).
  exists l, ls, chunk, rest.
  assert ((NUL ∉ chunk) ∧ (NUL ∉ rest)) as [Hnc Hnr].
  { rewrite Hfp in Hnul. by apply not_elem_of_app in Hnul. }
  assert (chunk ≠ []) as Hcne.
  { destruct Hchunk as [-> | ->]; [by destruct l |].
    intros ->. simpl in Hfp. subst rest. simpl in Hlines.
    rewrite Hlines in Hrest. apply (f_equal length) in Hrest. simpl in Hrest. lia. }
  repeat split; try done.
  - unfold fgets. destruct fp; [done |]. by rewrite Hread.
  - rewrite cstr_id by done. destruct Hchunk as [-> | ->]; [| done].
    apply trim_snoc; [apply is_ws_LF | done].
  - by rewrite Hrest.
  - rewrite Hfp, length_app. destruct chunk; [done |]. simpl. lia.
Qed.

End Lines.

(** ** The loop over the file *)

Section ReadCommands.

Lemma read_commands_S (fuel : nat) (commands : list cstring) (n : nat)
    (fp : list ascii) :
  read_commands (S fuel) commands n fp =
  match fgets MAX_LINE fp with
  | None => emit (Fgets n None) ;; mret (commands, n)
  | Some (line, fp') =>
      emit (Fgets n (Some line)) ;;
      if decide (MAX_RANKS ≤ n)%nat then stop (OutOfBounds n)
      else
        read_commands fuel (alter trim n (<[n := cstr line]> commands))
          (if qualifies (alter trim n (<[n := cstr line]> commands) !!! n)
           then S n else n) fp'
  end.
Proof. reflexivity. Qed.

Lemma store_lines_cons (l : list ascii) (ls : list (list ascii))
    (commands : list cstring) (n : nat) :
  store_lines (l :: ls) commands n =
  if decide (MAX_RANKS ≤ n)%nat then Stop (OutOfBounds n)
  else store_lines ls (<[n := trim l]> commands)
         (if qualifies (trim l) then S n else n).
Proof. reflexivity. Qed.

Lemma alter_trim_insert (commands : list cstring) (n : nat) (row : cstring) :
  alter trim n (<[n := row]> commands) = <[n := trim row]> commands.
Proof.
  apply list_eq. intros i. destruct (decide (i = n)) as [-> | Hi].
  - rewrite list_lookup_alter_eq.
    destruct (decide (n < length commands)%nat).
    + by rewrite !list_lookup_insert_eq by lia.
    + rewrite !list_insert_ge by lia. by rewrite lookup_ge_None_2 by lia.
  - by rewrite list_lookup_alter_ne, !list_lookup_insert_ne.
Qed.

Lemma read_commands_text (fuel : nat) :
  ∀ fp commands n,
    text_file fp → (length fp < fuel)%nat → length commands = MAX_RANKS →
    (read_commands fuel commands n fp).2 = store_lines (lines fp) commands n.
Proof.
  induction fuel as [|fuel IH]; intros fp commands n Htext Hfuel Hlen; [lia |].
  rewrite read_commands_S.
  destruct (decide (fp = [])) as [-> | Hne]; [done |].
  destruct (fgets_text fp Htext Hne)
    as (l & ls & chunk & rest & Hl & Hf & Ht & Hr & Hrest & Hshort).
  rewrite Hf, Hl, store_lines_cons, bind_emit_snd.
  destruct (decide (MAX_RANKS ≤ n)%nat) as [Hge | Hlt]; [done |].
  rewrite alter_trim_insert, Ht.
  rewrite list_lookup_total_insert_eq by lia.
  rewrite IH; [by rewrite Hr | done | lia |].
  by rewrite length_insert.
Qed.

Lemma rows_cons (l : list ascii) (ls : list (list ascii)) :
  rows (l :: ls) = if qualifies (trim l) then trim l :: rows ls else rows ls.
Proof.
  unfold rows. rewrite fmap_cons.
  destruct (qualifies (trim l)) eqn:Hq.
  - by rewrite filter_cons_True.
  - rewrite filter_cons_False; [done | congruence].
Qed.

Lemma store_lines_rows (ls : list (list ascii)) :
  ∀ commands n commands' n',
    length commands = MAX_RANKS →
    store_lines ls commands n = Next (commands', n') →
    n' = (n + length (rows ls))%nat
    ∧ length commands' = MAX_RANKS
    ∧ (∀ i, (i < n)%nat → commands' !! i = commands !! i)
    ∧ (∀ i, (i < length (rows ls))%nat → commands' !! (n + i)%nat = rows ls !! i)
    ∧ (∀ i, (n' < i)%nat → commands' !! i = commands !! i)
    ∧ commands' !! n' =
        match last ls with
        | Some l => if qualifies (trim l) then commands !! n' else Some (trim l)
        | None => commands !! n'
        end.
Proof.
  induction ls as [|l ls IH]; intros commands n commands' n' Hlen Hrun.
  - injection Hrun as <- <-. simpl. repeat split; try done; try lia.
  - rewrite store_lines_cons in Hrun.
    destruct (decide (MAX_RANKS ≤ n)%nat) as [Hge | Hlt]; [done |].
    apply IH in Hrun as (Hn' & Hlen' & Hlow & Hmid & Hhigh & Hlast);
      [| by rewrite length_insert].
    rewrite rows_cons.
    destruct (qualifies (trim l)) eqn:Hq; simpl length.
    + repeat split.
      * lia.
      * done.
      * intros i Hi. rewrite Hlow by lia. rewrite list_lookup_insert_ne by lia. done.
      * intros [|i] Hi.
        -- rewrite Nat.add_0_r, Hlow by lia.
           by rewrite list_lookup_insert_eq by lia.
        -- replace (n + S i)%nat with (S n + i)%nat by lia.
           rewrite Hmid by lia. done.
      * intros i Hi. rewrite Hhigh by lia. rewrite list_lookup_insert_ne by lia. done.
      * destruct ls as [|l2 ls].
        -- simpl in *. rewrite Hq. rewrite Hlast.
           rewrite list_lookup_insert_ne by lia. done.
        -- rewrite last_cons_cons. rewrite Hlast.
           destruct (last (l2 :: ls)) as [l3 |]; [| by rewrite list_lookup_insert_ne by lia].
           destruct (qualifies (trim l3)); [| done].
           by rewrite list_lookup_insert_ne by lia.
    + repeat split.
      * lia.
      * done.
      * intros i Hi. rewrite Hlow by lia. rewrite list_lookup_insert_ne by lia. done.
      * intros i Hi. rewrite Hmid by lia. done.
      * intros i Hi. rewrite Hhigh by lia. rewrite list_lookup_insert_ne by lia. done.
      * destruct ls as [|l2 ls].
        -- simpl in *. rewrite Hq. rewrite Hlast.
           subst n'. rewrite Nat.add_0_r.
           by rewrite list_lookup_insert_eq by lia.
        -- rewrite last_cons_cons. rewrite Hlast.
           destruct (last (l2 :: ls)) as [l3 |] eqn:Hl3;
             [| by apply last_None in Hl3].
           destruct (qualifies (trim l3)) eqn:Hq3; [| done].
           assert (rows (l2 :: ls) ≠ []) as Hne.
           { apply last_Some in Hl3 as [ls' Hl3]. rewrite Hl3. unfold rows.
             rewrite fmap_app, filter_app. simpl. rewrite filter_cons_True by done.
             by destruct (filter _ (trim <$> ls')). }
           rewrite list_lookup_insert_ne; [done |].
           destruct (rows (l2 :: ls)); [done |]. simpl in Hn'. lia.
Qed.

Lemma rows_last (ls : list (list ascii)) (l : list ascii) :
  last ls = Some l → qualifies (trim l) = true → rows ls ≠ [].
Proof.
  intros Hl Hq. apply last_Some in Hl as [ls' ->]. unfold rows.
  rewrite fmap_app, filter_app. simpl. rewrite filter_cons_True by done.
  by destruct (filter _ (trim <$> ls')).
Qed.

(** The loop ends normally when it collects fewer than MAX_RANKS rows,
    and also when the MAX_RANKS-th row is the last line of the file. *)
Lemma store_lines_ok (ls : list (list ascii)) :
  ∀ commands n,
    ((n + length (rows ls) < MAX_RANKS)%nat
     ∨ ((n + length (rows ls) ≤ MAX_RANKS)%nat
        ∧ ∃ l, last ls = Some l ∧ qualifies (trim l) = true)) →
    ∃ commands' n', store_lines ls commands n = Next (commands', n').
Proof.
  induction ls as [|l ls IH]; intros commands n Hroom; [by eexists _, _ |].
  rewrite store_lines_cons. rewrite rows_cons in Hroom.
  assert (n < MAX_RANKS)%nat as Hn.
  { destruct Hroom as [Hlt | [Hle (l' & Hlast & Hq)]]; [lia |].
    pose proof (rows_last _ _ Hlast Hq) as Hne. rewrite rows_cons in Hne.
    destruct (qualifies (trim l)); cbn [length] in *; [lia |].
    destruct (rows ls); [done |]. cbn [length] in Hle. lia. }
  destruct (decide (MAX_RANKS ≤ n)%nat); [lia |].
  destruct ls as [|l2 ls]; [by eexists _, _ |].
  apply IH. destruct Hroom as [Hlt | [Hle (l' & Hlast & Hq)]].
  - left. destruct (qualifies (trim l)); cbn [length] in *; lia.
  - right. split; [destruct (qualifies (trim l)); cbn [length] in *; lia |].
    exists l'. by rewrite last_cons_cons in Hlast.
Qed.

(** With input left after MAX_RANKS rows, [fgets] writes to row
    MAX_RANKS. *)
Lemma store_lines_overflow (ls : list (list ascii)) :
  ∀ commands n,
    (n ≤ MAX_RANKS)%nat → (MAX_RANKS < n + length (rows ls))%nat →
    store_lines ls commands n = Stop (OutOfBounds MAX_RANKS).
Proof.
  induction ls as [|l ls IH]; intros commands n Hn Hmany.
  - unfold rows in Hmany. cbn [length filter fmap list_fmap list_filter] in Hmany. lia.
  - rewrite store_lines_cons. rewrite rows_cons in Hmany.
    destruct (decide (MAX_RANKS ≤ n)%nat) as [Hge | Hlt].
    + by replace n with MAX_RANKS by lia.
    + apply IH; destruct (qualifies (trim l)); cbn [length] in *; lia.
Qed.

(** The facts below hold for every file, text or not. *)

Lemma read_line_length (room : nat) :
  ∀ fp chunk rest,
    read_line room fp = (chunk, rest) → fp = chunk ++ rest.
Proof.
  induction room as [|room IH]; intros fp chunk rest Hread.
  - simpl in Hread. destruct fp; by injection Hread as <- <-.
  - destruct fp as [|c fp]; [by injection Hread as <- <- |].
    simpl in Hread. destruct (Ascii.eqb c LF).
    + by injection Hread as <- <-.
    + destruct (read_line room fp) as [l r] eqn:Hrec.
      injection Hread as <- <-. simpl. f_equal. by apply IH.
Qed.

Lemma fgets_progress (fp chunk rest : list ascii) :
  fgets MAX_LINE fp = Some (chunk, rest) → (length rest < length fp)%nat.
Proof.
  unfold fgets. destruct fp as [|c fp]; [done |]. intros [= Hread].
  pose proof (read_line_length _ _ _ _ Hread) as Hfp.
  replace (MAX_LINE - 1)%nat with (S (MAX_LINE - 2)) in Hread
    by (rewrite MAX_LINE_eq; lia).
  simpl in Hread. rewrite Hfp.
  destruct (Ascii.eqb c LF).
  - injection Hread as <- <-. simpl. lia.
  - destruct (read_line _ fp) as [l r]. injection Hread as <- <-.
    rewrite length_app. simpl. lia.
Qed.

(** The loop of the model never runs out of fuel. *)
Lemma read_commands_fuel (fuel : nat) :
  ∀ fp commands n,
    (length fp < fuel)%nat →
    (read_commands fuel commands n fp).2 ≠ Stop OutOfFuel.
Proof.
  induction fuel as [|fuel IH]; intros fp commands n Hfuel; [lia |].
  rewrite read_commands_S.
  destruct (fgets MAX_LINE fp) as [[chunk rest] |] eqn:Hf.
  - rewrite bind_emit_snd.
    destruct (decide (MAX_RANKS ≤ n)%nat); [done |].
    apply IH. apply fgets_progress in Hf. lia.
  - by rewrite bind_emit_snd.
Qed.

(** It collects at most MAX_RANKS rows and keeps the array's size. *)
Lemma read_commands_bound (fuel : nat) :
  ∀ fp commands n t commands' n',
    (n ≤ MAX_RANKS)%nat →
    read_commands fuel commands n fp = (t, Next (commands', n')) →
    (n ≤ n' ≤ MAX_RANKS)%nat ∧ length commands' = length commands.
Proof.
  induction fuel as [|fuel IH]; intros fp commands n t commands' n' Hn Hrun;
    [done |].
  rewrite read_commands_S in Hrun.
  destruct (fgets MAX_LINE fp) as [[chunk rest] |].
  - apply bind_emit_inv in Hrun as (t' & -> & Hrun).
    destruct (decide (MAX_RANKS ≤ n)%nat); [done |].
    apply IH in Hrun as [Hle Hlen].
    + rewrite length_alter, length_insert in Hlen. split; [| done].
      destruct (qualifies _) in Hle; lia.
    + destruct (qualifies _); lia.
  - apply bind_emit_inv in Hrun as (t' & -> & [= <- <- <-]). lia.
Qed.

(** Its events are calls of [fgets]. *)
Lemma read_commands_trace (fuel : nat) :
  ∀ fp commands n,
    Forall (λ e, is_fgets e = true) (read_commands fuel commands n fp).1.
Proof.
  induction fuel as [|fuel IH]; intros fp commands n; [constructor |].
  rewrite read_commands_S.
  destruct (fgets MAX_LINE fp) as [[chunk rest] |].
  - rewrite bind_emit_fst. constructor; [done |].
    destruct (decide (MAX_RANKS ≤ n)%nat); [constructor | apply IH].
  - rewrite bind_emit_fst. by repeat constructor.
Qed.

Lemma read_commands_events (fuel : nat) (fp : list ascii)
    (commands : list cstring) (n : nat) (t : list event)
    (r : result (list cstring * nat)) :
  read_commands fuel commands n fp = (t, r) →
  Forall (λ e, is_fgets e = true) t.
Proof.
  intros Hrun. pose proof (read_commands_trace fuel fp commands n) as Ht.
  by rewrite Hrun in Ht.
Qed.

(** When it stops on row [m], the last event is the call of [fgets] that
    stored a line in [commands[m]], and [m] is MAX_RANKS. *)
Lemma read_commands_overflow (fuel : nat) :
  ∀ fp commands n t m,
    (n ≤ MAX_RANKS)%nat →
    read_commands fuel commands n fp = (t, Stop (OutOfBounds m)) →
    m = MAX_RANKS ∧ ∃ line, last t = Some (Fgets m (Some line)).
Proof.
  induction fuel as [|fuel IH]; intros fp commands n t m Hn Hrun; [done |].
  rewrite read_commands_S in Hrun.
  destruct (fgets MAX_LINE fp) as [[chunk rest] |].
  - apply bind_emit_inv in Hrun as (t' & -> & Hrun).
    destruct (decide (MAX_RANKS ≤ n)%nat) as [Hge | Hlt].
    + injection Hrun as <- <-. split; [lia | by exists chunk].
    + apply IH in Hrun as [-> [line Hlast]]; [| destruct (qualifies _); lia].
      split; [done |]. exists line.
      destruct t' as [|e t']; [done |]. by rewrite last_cons_cons.
  - by apply bind_emit_inv in Hrun as (t' & -> & [= <- ?]).
Qed.

End ReadCommands.

(** ** Valid lines and kept rows *)

Section ValidLines.

Lemma qualifies_valid (t : cstring) : NUL ∉ t → qualifies t = is_valid t.
Proof.
  destruct t as [|c t]; [done |]. intros Hnul.
  apply not_elem_of_cons in Hnul as [Hc _].
  unfold qualifies, is_valid, is_comment. simpl.
  by destruct (Ascii.eqb_spec c NUL).
Qed.

Lemma lines_elem (fp : list ascii) :
  ∀ l c, l ∈ lines fp → c ∈ l → c ∈ fp.
Proof.
  induction fp as [|a fp IH]; intros l c Hl Hc; [by apply elem_of_nil in Hl |].
  simpl in Hl. destruct (Ascii.eqb a LF).
  - apply elem_of_cons in Hl as [-> | Hl]; [by apply elem_of_nil in Hc |].
    apply elem_of_cons. right. by apply (IH l).
  - destruct (lines fp) as [|l' ls].
    + apply list_elem_of_singleton in Hl as ->.
      apply list_elem_of_singleton in Hc as ->. apply elem_of_cons. by left.
    + apply elem_of_cons in Hl as [-> | Hl].
      * apply elem_of_cons in Hc as [-> | Hc]; apply elem_of_cons; [by left |].
        right. apply (IH l'); [apply elem_of_cons; by left | done].
      * apply elem_of_cons. right. apply (IH l); [| done].
        apply elem_of_cons. by right.
Qed.

Lemma trim_elem (s : cstring) (c : ascii) :
  Z.of_nat (length s) <= INT_MAX → c ∈ trim s → c ∈ s.
Proof.
  intros Hlen Hc. destruct (trim_split s Hlen) as (l & r & Hs & _).
  rewrite Hs. apply elem_of_app. right. apply elem_of_app. by left.
Qed.

Lemma text_line (fp l : list ascii) :
  text_file fp → l ∈ lines fp →
  (NUL ∉ trim l) ∧ (length l + 2 ≤ MAX_LINE)%nat.
Proof.
  intros [Hnul Hfit] Hl.
  assert (length l + 2 ≤ MAX_LINE)%nat as Hlen.
  { rewrite Forall_forall in Hfit. by apply Hfit. }
  split; [| done]. intros Hc. apply Hnul.
  apply (lines_elem fp l); [done |]. apply trim_elem; [| done].
  apply line_fits in Hlen. lia.
Qed.

Lemma rows_valid_lines (fp : list ascii) :
  text_file fp → rows (lines fp) = valid_lines fp.
Proof.
  intros Htext. unfold rows, valid_lines.
  assert (∀ l, l ∈ lines fp → NUL ∉ trim l) as Hnul.
  { intros l Hl. by apply (text_line fp l). }
  induction (lines fp) as [|l ls IH]; [done |].
  rewrite fmap_cons.
  assert (qualifies (trim l) = is_valid (trim l)) as Hq.
  { apply qualifies_valid, Hnul. apply elem_of_cons. by left. }
  assert (∀ l0, l0 ∈ ls → NUL ∉ trim l0) as Hnul'.
  { intros l0 Hl0. apply Hnul. apply elem_of_cons. by right. }
  destruct (is_valid (trim l)) eqn:Hv.
  - rewrite !filter_cons_True by done. by rewrite IH.
  - rewrite !filter_cons_False by congruence. by rewrite IH.
Qed.

End ValidLines.

(** ** The distribution *)

Section Distribute.

Lemma send_commands_ok (commands : list cstring) (ranks : list nat) :
  Forall (λ i, (i < length commands)%nat) ranks →
  send_commands commands ranks =
  ((λ i, Send i (commands !!! i)) <$> ranks, Next tt).
Proof.
  induction ranks as [|i ranks IH]; intros Hin; [done |].
  apply Forall_cons in Hin as [Hi Hin]. cbn [send_commands].
  destruct (lookup_lt_is_Some_2 commands i Hi) as [row Hrow].
  rewrite Hrow, bind_emit, (IH Hin). cbn [fst snd fmap list_fmap].
  by rewrite (list_lookup_total_correct _ _ _ Hrow).
Qed.

(** Only rows below [size] are sent, each to the rank of its index. *)
Lemma send_commands_dest (commands : list cstring) (ranks : list nat) :
  ∀ dest buf,
    Send dest buf ∈ (send_commands commands ranks).1 →
    dest ∈ ranks ∧ commands !! dest = Some buf.
Proof.
  induction ranks as [|i ranks IH]; intros dest buf Hin.
  - by apply elem_of_nil in Hin.
  - cbn [send_commands] in Hin. destruct (commands !! i) as [row |] eqn:Hrow.
    + rewrite bind_emit_fst in Hin. apply elem_of_cons in Hin as [[= -> ->] | Hin].
      * split; [apply elem_of_cons; by left | done].
      * apply IH in Hin as [Hd Hb]. split; [apply elem_of_cons; by right | done].
    + by apply elem_of_nil in Hin.
Qed.

Lemma sent_to_app (rank : nat) (t1 t2 : list event) :
  sent_to rank (t1 ++ t2) =
  match sent_to rank t1 with
  | Some buf => Some buf
  | None => sent_to rank t2
  end.
Proof.
  induction t1 as [|e t1 IH]; [done |].
  destruct e; simpl; try done. by destruct (decide (dest = rank)).
Qed.

Lemma sent_to_fgets (rank : nat) (t : list event) :
  Forall (λ e, is_fgets e = true) t → sent_to rank t = None.
Proof.
  induction 1 as [|e t He Ht IH]; [done |]. by destruct e.
Qed.

Lemma sent_to_sends (rank : nat) (f : nat → cstring) (ranks : list nat) :
  rank ∈ ranks → sent_to rank ((λ i, Send i (f i)) <$> ranks) = Some (f rank).
Proof.
  induction ranks as [|i ranks IH]; intros Hin; [by apply elem_of_nil in Hin |].
  simpl. destruct (decide (i = rank)) as [-> | Hne]; [done |].
  apply IH. apply elem_of_cons in Hin as [-> | Hin]; done.
Qed.

Lemma Forall_seq_lt (size bound : nat) :
  (size ≤ bound)%nat → Forall (λ i, (i < bound)%nat) (seq 1 (size - 1)).
Proof.
  intros Hle. apply Forall_forall. intros i Hi.
  apply elem_of_seq in Hi. lia.
Qed.

(** What rank 0 does once the file is read. *)
Lemma distribute_coordinator (w : world) (arg : cstring) (size : nat)
    (inbox : option cstring) (fp : list ascii) (t : list event)
    (commands : list cstring) (n : nat) :
  fopen w arg = Some fp →
  read_commands (S (length fp)) (replicate MAX_RANKS []) 0 fp
    = (t, Next (commands, n)) →
  (size ≤ length commands)%nat →
  distribute w arg 0 size inbox =
  (t ++ (if decide (size < n)%nat then [ExtraIgnored n size] else [])
     ++ ((λ i, Send i (commands !!! i)) <$> seq 1 (size - 1)),
   Next (if decide (0 < n)%nat then commands !!! 0%nat else [])).
Proof.
  intros Hopen Hread Hsize. unfold distribute.
  rewrite (decide_True (P := (0%nat = 0%nat))) by done.
  rewrite Hopen, Hread, bind_next.
  rewrite (decide_True (P := (0%nat = 0%nat))) by done.
  rewrite (send_commands_ok commands) by by apply Forall_seq_lt.
  rewrite (bind_next _ tt). cbn [fst snd mret prog_ret]. rewrite app_nil_r.
  destruct (decide (size < n)%nat); [by rewrite bind_emit | by rewrite bind_mret].
Qed.

Lemma distribute_member (w : world) (arg : cstring) (rank size : nat)
    (buf : cstring) :
  rank ≠ 0%nat →
  distribute w arg rank size (Some buf) = ([Recv buf], Next buf).
Proof.
  intros Hrank. unfold distribute.
  rewrite (decide_False (P := (rank = 0%nat))) by done.
  rewrite bind_mret.
  by rewrite (decide_False (P := (rank = 0%nat))) by done.
Qed.

Lemma sent_to_coordinator (rank size n : nat) (t : list event)
    (commands : list cstring) :
  Forall (λ e, is_fgets e = true) t →
  sent_to rank
    (t ++ (if decide (size < n)%nat then [ExtraIgnored n size] else [])
       ++ ((λ i, Send i (commands !!! i)) <$> seq 1 (size - 1))) =
  if decide (1 ≤ rank < size)%nat then Some (commands !!! rank) else None.
Proof.
  intros Ht. rewrite sent_to_app, (sent_to_fgets _ _ Ht), sent_to_app.
  assert (sent_to rank (if decide (size < n)%nat
                        then [ExtraIgnored n size] else []) = None) as ->.
  { by destruct (decide (size < n)%nat). }
  destruct (decide (1 ≤ rank < size)%nat) as [Hin | Hout].
  - apply (sent_to_sends rank (λ i, commands !!! i)). apply elem_of_seq. lia.
  - assert (rank ∉ seq 1 (size - 1)) as Hnot.
    { intros Hin. apply elem_of_seq in Hin. lia. }
    induction (seq 1 (size - 1)) as [|i ranks IH]; [done |].
    apply not_elem_of_cons in Hnot as [Hne Hnot]. simpl.
    rewrite decide_False by done. by apply IH.
Qed.

(** The assignment of every rank, read off the array rank 0 filled. *)
Lemma assignment_rows (w : nat → world) (arg : cstring) (size rank : nat)
    (fp : list ascii) (t : list event) (commands : list cstring) (n : nat) :
  fopen (w 0%nat) arg = Some fp →
  read_commands (S (length fp)) (replicate MAX_RANKS []) 0 fp
    = (t, Next (commands, n)) →
  (size ≤ length commands)%nat → (rank < size)%nat →
  assignment w arg size rank =
  Some (if decide (rank = 0%nat)
        then if decide (0 < n)%nat then commands !!! 0%nat else []
        else commands !!! rank).
Proof.
  intros Hopen Hread Hsize Hrank. unfold assignment.
  rewrite (distribute_coordinator _ _ _ None _ _ _ _ Hopen Hread Hsize).
  destruct (decide (rank = 0%nat)) as [-> | Hne].
  - by rewrite (distribute_coordinator _ _ _ None _ _ _ _ Hopen Hread Hsize).
  - cbn [fst]. rewrite sent_to_coordinator.
    + rewrite decide_True by lia. by rewrite distribute_member.
    + by apply read_commands_events in Hread.
Qed.

(** Reading a text file whose valid lines fit the array: the rows below
    their number hold the valid lines in file order, the rows above it
    are still empty, and so is the row at their number unless the file
    ends with a comment line. *)
Lemma read_text_file (fp : list ascii) :
  text_file fp →
  ((length (valid_lines fp) < MAX_RANKS)%nat
   ∨ ((length (valid_lines fp) ≤ MAX_RANKS)%nat ∧ ends_with_valid fp)) →
  ∃ t commands,
    read_commands (S (length fp)) (replicate MAX_RANKS []) 0 fp
      = (t, Next (commands, length (valid_lines fp)))
    ∧ length commands = MAX_RANKS
    ∧ (∀ i, (i < length (valid_lines fp))%nat →
            commands !! i = valid_lines fp !! i)
    ∧ (∀ i, (length (valid_lines fp) < i < MAX_RANKS)%nat →
            commands !! i = Some [])
    ∧ ((length (valid_lines fp) < MAX_RANKS)%nat → ¬ ends_with_comment fp →
       commands !! length (valid_lines fp) = Some []).
Proof.
  intros Htext Hroom.
  pose proof (rows_valid_lines fp Htext) as Hrows.
  assert (∀ l, last (lines fp) = Some l →
               qualifies (trim l) = is_valid (trim l)) as Hlastq.
  { intros l Hl. apply qualifies_valid.
    apply (text_line fp l Htext). apply last_Some in Hl as [ls' ->].
    apply elem_of_app. right. apply elem_of_cons. by left. }
  destruct (store_lines_ok (lines fp) (replicate MAX_RANKS []) 0)
    as (commands & n & Hstore).
  { rewrite Hrows. simpl. destruct Hroom as [Hlt | [Hle (l & Hl & Hv)]]; [by left |].
    right. split; [done |]. exists l. split; [done |]. by rewrite Hlastq. }
  pose proof (read_commands_text (S (length fp)) fp (replicate MAX_RANKS []) 0
                Htext (Nat.lt_succ_diag_r _) (length_replicate _ _)) as Hread.
  rewrite Hstore in Hread.
  destruct (read_commands (S (length fp)) (replicate MAX_RANKS []) 0 fp)
    as [t r] eqn:Hrun.
  cbn [snd] in Hread. subst r.
  apply store_lines_rows in Hstore
    as (Hn & Hlen & _ & Hmid & Hhigh & Hlast); [| apply length_replicate].
  rewrite Hrows in *. simpl in Hn. subst n.
  exists t, commands. repeat split; try done.
  - intros i [Hi1 Hi2]. rewrite Hhigh by done. by apply lookup_replicate_2.
  - intros Hk Hnc. rewrite Hlast.
    destruct (last (lines fp)) as [l |] eqn:Hl; [| by apply lookup_replicate_2].
    rewrite (Hlastq l eq_refl).
    destruct (is_valid (trim l)) eqn:Hv; [by apply lookup_replicate_2 |].
    f_equal. unfold is_valid in Hv.
    destruct (trim l) as [|c tl] eqn:Htl; [done |]. simpl in Hv.
    exfalso. apply Hnc. exists l. split; [done |]. rewrite Htl.
    by destruct (is_comment (c :: tl)).
Qed.

End Distribute.

(** ** Lines that fill the line buffer *)

Section FullLines.

Lemma read_line_nil (room : nat) : read_line room [] = ([], []).
Proof. by destruct room. Qed.

(** One call of [fgets] on a file whose first line is not longer than
    the room: it takes the line with its LF, or the line without LF at
    the end of the file, or the line alone when it fills the room, which
    leaves its LF in the file. *)
Lemma read_line_whole (fp : list ascii) :
  ∀ room l ls,
    lines fp = l :: ls → (length l ≤ room)%nat →
    ∃ chunk rest,
      read_line room fp = (chunk, rest)
      ∧ ((chunk = l ++ [LF] ∧ (length l < room)%nat ∧ lines rest = ls)
         ∨ (chunk = l ∧ rest = [] ∧ ls = [])
         ∨ (chunk = l ∧ length l = room
            ∧ ∃ rest', rest = LF :: rest' ∧ lines rest' = ls)).
Proof.
  induction fp as [|c fp IH]; intros room l ls Hl Hroom; [done |].
  cbn [lines] in Hl. destruct (Ascii.eqb_spec c LF) as [-> | Hc].
  - injection Hl as <- <-. destruct room as [|room].
    + exists [], (LF :: fp). split; [done |]. right. right. eauto.
    + exists [LF], fp. split; [done |]. left. cbn [length]. split; [done |]. split; [lia | done].
  - destruct (lines fp) as [|l' ls'] eqn:Hfp; injection Hl as <- <-;
      (destruct room as [|room]; [cbn [length] in Hroom; lia |]).
    + apply lines_nil in Hfp as ->. exists [c], []. split.
      * cbn [read_line]. destruct (Ascii.eqb_spec c LF); [done |].
        by rewrite read_line_nil.
      * right. by left.
    + destruct (IH room l' ls' eq_refl) as (chunk & rest & Hread & Hcases);
        [cbn [length] in Hroom; lia |].
      exists (c :: chunk), rest. split.
      * cbn [read_line]. destruct (Ascii.eqb_spec c LF); [done |].
        by rewrite Hread.
      * destruct Hcases
          as [(-> & Hlt & Hrest) | [(-> & -> & ->) | (-> & Hlen & rest' & -> & Hrest)]].
        -- left. split; [done |]. split; [cbn [length]; lia | done].
        -- right. by left.
        -- right. right. split; [done |]. split; [cbn [length]; lia |]. eauto.
Qed.

(** A line holds no LF. *)
Lemma lines_head_LF (fp : list ascii) :
  ∀ l ls, lines fp = l :: ls → LF ∉ l.
Proof.
  induction fp as [|c fp IH]; intros l ls Hl; [done |].
  cbn [lines] in Hl. destruct (Ascii.eqb_spec c LF) as [-> | Hc].
  - injection Hl as <- <-. apply not_elem_of_nil.
  - destruct (lines fp) as [|l' ls'] eqn:Hfp; injection Hl as <- <-.
    + apply not_elem_of_cons. split; [congruence | apply not_elem_of_nil].
    + apply not_elem_of_cons. split; [congruence | by apply (IH l' ls')].
Qed.

Lemma lines_LF (rest : list ascii) : lines (LF :: rest) = [] :: lines rest.
Proof. reflexivity. Qed.

Lemma text_roster (fp : list ascii) : text_file fp → roster_text fp.
Proof.
  intros [Hnul Hfit]. split; [done |].
  eapply Forall_impl; [exact Hfit |]. cbn beta. intros l Hl. lia.
Qed.

Lemma roster_textb_ok (fp : list ascii) : roster_textb fp = true → roster_text fp.
Proof.
  unfold roster_textb, roster_text. intros Hb.
  apply andb_true_iff in Hb as [Hnul Hfit]. split.
  - intros Hin. rewrite forallb_forall in Hnul.
    apply list_elem_of_In, Hnul in Hin. by rewrite Ascii.eqb_refl in Hin.
  - apply Forall_forall. intros l Hl. rewrite forallb_forall in Hfit.
    apply list_elem_of_In, Hfit in Hl. by apply Nat.ltb_lt.
Qed.

(** One call of [fgets] on such a file. *)
Lemma fgets_roster (fp : list ascii) :
  roster_text fp → fp ≠ [] →
  ∃ l ls chunk rest,
    lines fp = l :: ls
    ∧ fgets MAX_LINE fp = Some (chunk, rest)
    ∧ fp = chunk ++ rest
    ∧ trim chunk = trim l
    ∧ roster_text rest
    ∧ ((chunk = l ++ [LF] ∧ (length l + 2 ≤ MAX_LINE)%nat ∧ lines rest = ls)
       ∨ (chunk = l ∧ rest = [] ∧ ls = [])
       ∨ (chunk = l ∧ length l = (MAX_LINE - 1)%nat
          ∧ ∃ rest', rest = LF :: rest' ∧ lines rest' = ls)).
Proof.
  intros [Hnul Hfit] Hne.
  destruct (lines fp) as [|l ls] eqn:Hlines; [by apply lines_nil in Hlines |].
  apply Forall_cons in Hfit as [Hl Hls].
  destruct (read_line_whole fp (MAX_LINE - 1) l ls Hlines)
    as (chunk & rest & Hread & Hcases); [lia |].
  pose proof (read_line_length _ _ _ _ Hread) as Hfp.
  exists l, ls, chunk, rest.
  assert (NUL ∉ rest) as Hnr.
  { rewrite Hfp in Hnul. by apply not_elem_of_app in Hnul as [_ ?]. }
  split; [done |].
  split; [unfold fgets; destruct fp; [done | by rewrite Hread] |].
  split; [done |]. split; [| split].
  - destruct Hcases as [(-> & Hlt & _) | [(-> & _) | (-> & _)]]; try done.
    apply trim_snoc; [apply is_ws_LF |].
    rewrite MAX_LINE_eq in Hl. unfold INT_MAX. lia.
  - split; [done |].
    destruct Hcases
      as [(_ & _ & ->) | [(_ & -> & _) | (_ & _ & rest' & -> & Hrest)]].
    + done.
    + constructor.
    + rewrite lines_LF, Hrest. constructor; [| done].
      cbn [length]. rewrite MAX_LINE_eq. lia.
  - destruct Hcases as [(? & Hlt & ?) | [? | ?]];
      [left | right; by left | right; by right].
    split; [done |]. split; [lia | done].
Qed.

Lemma fgets_all_S (fuel : nat) (fp : list ascii) :
  fgets_all (S fuel) fp =
  match fgets MAX_LINE fp with
  | None => []
  | Some (line, fp') => line :: fgets_all fuel fp'
  end.
Proof. reflexivity. Qed.

Lemma fgets_all_nil (fuel : nat) : fgets_all fuel [] = [].
Proof. by destruct fuel. Qed.

Lemma fgets_split (fp chunk rest : list ascii) :
  fgets MAX_LINE fp = Some (chunk, rest) → fp = chunk ++ rest.
Proof.
  unfold fgets. destruct fp as [|c fp]; [done |]. intros [= Hread].
  by apply read_line_length in Hread.
Qed.

(** On a file without NUL the loop stores what the calls of [fgets]
    return, trimmed, one after the other. *)
Lemma read_commands_chunked (fuel : nat) :
  ∀ fp commands n,
    NUL ∉ fp → (length fp < fuel)%nat → length commands = MAX_RANKS →
    (read_commands fuel commands n fp).2
    = store_lines (fgets_all fuel fp) commands n.
Proof.
  induction fuel as [|fuel IH]; intros fp commands n Hnul Hfuel Hlen; [lia |].
  rewrite read_commands_S, fgets_all_S.
  destruct (fgets MAX_LINE fp) as [[chunk rest] |] eqn:Hf;
    [| by rewrite bind_emit_snd].
  rewrite bind_emit_snd, store_lines_cons.
  destruct (decide (MAX_RANKS ≤ n)%nat) as [Hge | Hlt]; [done |].
  pose proof (fgets_split _ _ _ Hf) as Hfp.
  pose proof (fgets_progress _ _ _ Hf) as Hshort.
  rewrite Hfp in Hnul. apply not_elem_of_app in Hnul as [Hnc Hnr].
  rewrite alter_trim_insert, cstr_id by done.
  rewrite list_lookup_total_insert_eq by lia.
  apply IH; [done | lia | by rewrite length_insert].
Qed.

Lemma rows_blank (ls : list (list ascii)) : rows ([] :: ls) = rows ls.
Proof. by rewrite rows_cons. Qed.

(** The LF that a full line leaves behind is stored as a blank row, so
    the rows kept are those of the lines. *)
Lemma rows_fgets_all (fuel : nat) :
  ∀ fp, roster_text fp → (length fp < fuel)%nat →
        rows (fgets_all fuel fp) = rows (lines fp).
Proof.
  induction fuel as [|fuel IH]; intros fp Htext Hfuel; [lia |].
  rewrite fgets_all_S.
  destruct (decide (fp = [])) as [-> | Hne]; [done |].
  destruct (fgets_roster fp Htext Hne)
    as (l & ls & chunk & rest & Hl & Hf & Hfp & Ht & Hrest & Hcases).
  rewrite Hf, Hl, !rows_cons, Ht.
  assert (length rest < fuel)%nat as Hshort
    by (apply fgets_progress in Hf; lia).
  rewrite (IH rest Hrest Hshort).
  assert (rows (lines rest) = rows ls) as ->; [| done].
  destruct Hcases
    as [(_ & _ & ->) | [(_ & -> & ->) | (_ & _ & rest' & -> & <-)]];
    [done | done |].
  rewrite lines_LF. apply rows_blank.
Qed.

Lemma lone_LF_rest (chunk rest : list ascii) :
  rest ≠ [] → last (lines (chunk ++ rest)) = last (lines rest) →
  lone_LF (chunk ++ rest) ↔ lone_LF rest.
Proof.
  intros Hne Hlast. unfold lone_LF. rewrite Hlast.
  destruct rest as [|c rest]; [done |]. by rewrite last_app_cons.
Qed.

(** What the last call of [fgets] returns: the last line, or the LF a
    full last line leaves behind. *)
Lemma last_fgets_all (fuel : nat) :
  ∀ fp l0,
    roster_text fp → (length fp < fuel)%nat →
    last (lines fp) = Some l0 →
    ∃ c, last (fgets_all fuel fp) = Some c
         ∧ ((lone_LF fp ∧ trim c = []) ∨ (¬ lone_LF fp ∧ trim c = trim l0)).
Proof.
  induction fuel as [|fuel IH]; intros fp l0 Htext Hfuel Hlast; [lia |].
  destruct (decide (fp = [])) as [-> | Hne]; [done |].
  destruct (fgets_roster fp Htext Hne)
    as (l & ls & chunk & rest & Hl & Hf & Hfp & Ht & Hrest & Hcases).
  assert (length rest < fuel)%nat as Hshort
    by (apply fgets_progress in Hf; lia).
  rewrite fgets_all_S, Hf.
  assert (rest ≠ [] → last (lines fp) = last (lines rest) →
          ∃ c, last (chunk :: fgets_all fuel rest) = Some c
               ∧ ((lone_LF fp ∧ trim c = [])
                  ∨ (¬ lone_LF fp ∧ trim c = trim l0))) as Hrec.
  { intros Hrne Hsame. rewrite Hlast in Hsame.
    destruct (IH rest l0 Hrest Hshort (eq_sym Hsame)) as (c & Hc & Hcase).
    exists c. split.
    - destruct (fgets_all fuel rest) as [|c1 cs]; [done |].
      by rewrite last_cons_cons.
    - rewrite Hfp. rewrite lone_LF_rest; [done | done |].
      by rewrite <- Hfp, Hlast. }
  destruct Hcases
    as [(Hc & Hlen & Hr) | [(Hc & Hr & Hls) | (Hc & Hlen & rest' & Hr & Hr')]].
  - destruct (decide (rest = [])) as [Hnil | Hrne].
    + subst rest. cbn [lines] in Hr. subst ls.
      rewrite Hl in Hlast. injection Hlast as <-.
      exists chunk. rewrite fgets_all_nil. split; [done |]. right.
      split; [| done]. intros (l' & Hl' & Hlen' & _).
      rewrite Hl in Hl'. injection Hl' as <-. lia.
    + apply Hrec; [done |]. rewrite Hl, Hr.
      destruct ls as [|l2 ls]; [| by rewrite last_cons_cons].
      by apply lines_nil in Hr.
  - subst chunk rest ls. rewrite Hl in Hlast. injection Hlast as <-.
    exists l. rewrite fgets_all_nil. split; [done |]. right.
    split; [| done]. intros (l' & _ & _ & Hlf).
    rewrite Hfp, app_nil_r in Hlf. apply last_Some in Hlf as [l'' Hlf].
    apply (lines_head_LF fp l [] Hl). rewrite Hlf.
    apply elem_of_app. right. apply elem_of_cons. by left.
  - subst rest. destruct ls as [|l2 ls].
    + apply lines_nil in Hr'. subst rest'.
      rewrite Hl in Hlast. injection Hlast as <-.
      destruct (IH [LF] [] Hrest Hshort eq_refl) as (c & Hc' & Hcase).
      exists c. split.
      * destruct (fgets_all fuel [LF]) as [|c1 cs]; [done |].
        by rewrite last_cons_cons.
      * left. split.
        -- exists l. rewrite Hl, Hfp. split; [done |]. split; [done |].
           subst chunk. apply last_snoc.
        -- by destruct Hcase as [[_ ?] | [_ ?]].
    + apply Hrec; [done |]. rewrite Hl, lines_LF, Hr'.
      by rewrite !last_cons_cons.
Qed.

Lemma roster_line (fp l : list ascii) :
  roster_text fp → l ∈ lines fp → NUL ∉ trim l.
Proof.
  intros [Hnul Hfit] Hl Hc.
  assert (length l < MAX_LINE)%nat as Hlen.
  { rewrite Forall_forall in Hfit. by apply Hfit. }
  apply Hnul, (lines_elem fp l); [done |]. apply trim_elem; [| done].
  rewrite MAX_LINE_eq in Hlen. unfold INT_MAX. lia.
Qed.

Lemma rows_roster (fp : list ascii) :
  roster_text fp → rows (lines fp) = valid_lines fp.
Proof.
  intros Htext. unfold rows, valid_lines.
  assert (∀ l, l ∈ lines fp → NUL ∉ trim l) as Hnul.
  { intros l Hl. by apply (roster_line fp l). }
  induction (lines fp) as [|l ls IH]; [done |].
  rewrite fmap_cons.
  assert (qualifies (trim l) = is_valid (trim l)) as Hq.
  { apply qualifies_valid, Hnul. apply elem_of_cons. by left. }
  assert (∀ l0, l0 ∈ ls → NUL ∉ trim l0) as Hnul'.
  { intros l0 Hl0. apply Hnul. apply elem_of_cons. by right. }
  destruct (is_valid (trim l)) eqn:Hv.
  - rewrite !filter_cons_True by done. by rewrite IH.
  - rewrite !filter_cons_False by congruence. by rewrite IH.
Qed.

(** Reading a roster whose lines fit one call of [fgets] and whose valid
    lines fit the array: the rows below their number hold the valid
    lines in file order, the rows above it are still empty, and so is
    the row at their number unless the last call of [fgets] returned a
    comment line. *)
Lemma read_roster (fp : list ascii) :
  roster_text fp →
  ((length (valid_lines fp) < MAX_RANKS)%nat
   ∨ ((length (valid_lines fp) ≤ MAX_RANKS)%nat
      ∧ ends_with_valid fp ∧ ¬ lone_LF fp)) →
  ∃ t commands,
    read_commands (S (length fp)) (replicate MAX_RANKS []) 0 fp
      = (t, Next (commands, length (valid_lines fp)))
    ∧ length commands = MAX_RANKS
    ∧ (∀ i, (i < length (valid_lines fp))%nat →
            commands !! i = valid_lines fp !! i)
    ∧ (∀ i, (length (valid_lines fp) < i < MAX_RANKS)%nat →
            commands !! i = Some [])
    ∧ ((length (valid_lines fp) < MAX_RANKS)%nat →
       ¬ ends_with_comment fp ∨ lone_LF fp →
       commands !! length (valid_lines fp) = Some []).
Proof.
  intros Htext Hroom.
  pose proof (rows_roster fp Htext) as Hrows.
  pose proof (rows_fgets_all (S (length fp)) fp Htext (Nat.lt_succ_diag_r _))
    as Hchunks.
  rewrite Hrows in Hchunks.
  assert (∀ l, last (lines fp) = Some l →
               qualifies (trim l) = is_valid (trim l)) as Hlastq.
  { intros l Hl. apply qualifies_valid.
    apply (roster_line fp l Htext). apply last_Some in Hl as [ls' ->].
    apply elem_of_app. right. apply elem_of_cons. by left. }
  destruct (store_lines_ok (fgets_all (S (length fp)) fp)
              (replicate MAX_RANKS []) 0) as (commands & n & Hstore).
  { rewrite Hchunks. cbn [Nat.add].
    destruct Hroom as [Hlt | (Hle & (l & Hl & Hv) & Hlone)]; [by left |].
    right. split; [done |].
    destruct (last_fgets_all (S (length fp)) fp l Htext
                (Nat.lt_succ_diag_r _) Hl) as (c & Hc & [[? _] | [_ Hcl]]);
      [done |].
    exists c. split; [done |]. by rewrite Hcl, Hlastq. }
  pose proof (read_commands_chunked (S (length fp)) fp (replicate MAX_RANKS []) 0
                (proj1 Htext) (Nat.lt_succ_diag_r _) (length_replicate _ _))
    as Hread.
  rewrite Hstore in Hread.
  destruct (read_commands (S (length fp)) (replicate MAX_RANKS []) 0 fp)
    as [t r] eqn:Hrun.
  cbn [snd] in Hread. subst r.
  apply store_lines_rows in Hstore
    as (Hn & Hlen & _ & Hmid & Hhigh & Hlast); [| apply length_replicate].
  rewrite Hchunks in *. cbn [Nat.add] in Hn, Hmid. subst n.
  exists t, commands. repeat split; try done.
  - intros i [Hi1 Hi2]. rewrite Hhigh by done. by apply lookup_replicate_2.
  - intros Hk Hnc. rewrite Hlast.
    destruct (last (fgets_all (S (length fp)) fp)) as [c |] eqn:Hc;
      [| by apply lookup_replicate_2].
    destruct (qualifies (trim c)) eqn:Hq; [by apply lookup_replicate_2 |].
    f_equal.
    destruct (last (lines fp)) as [l |] eqn:Hl.
    2: { apply last_None, lines_nil in Hl. subst fp. done. }
    destruct (last_fgets_all (S (length fp)) fp l Htext
                (Nat.lt_succ_diag_r _) Hl) as (c' & Hc' & Hcase).
    rewrite Hc in Hc'. injection Hc' as <-.
    destruct Hcase as [[_ Hblank] | [Hnl Hcl]]; [done |].
    destruct Hnc as [Hnc | Hlone]; [| done].
    rewrite Hcl in *. rewrite (Hlastq l eq_refl) in Hq.
    unfold is_valid in Hq.
    destruct (trim l) as [|a tl] eqn:Htl; [done |]. cbn [is_blank negb andb] in Hq.
    exfalso. apply Hnc. exists l. split; [done |]. rewrite Htl.
    by destruct (is_comment (a :: tl)).
Qed.

End FullLines.

(** C1, amended.  In roster mode, with at most MAX_RANKS ranks and a
    roster without NUL byte whose lines have at most MAX_LINE - 1 bytes
    before their LF, of [k <= size] valid lines, where [k < MAX_RANKS] or
    the file ends with a valid line that leaves nothing to read: valid
    line [i] is the assignment of rank [i] for [i < k], rank 0 keeping
    its own without a message; every rank above [k] has the empty
    assignment, and so has rank [k] when [k = 0], when the file does not
    end with a comment line, or when that line has MAX_LINE - 1 bytes
    and an LF. *)
Theorem roster_mapping (w : nat → world) (arg : cstring) (size rank : nat)
    (fp : list ascii) :
  fopen (w 0%nat) arg = Some fp →
  roster_text fp →
  (1 ≤ size ≤ MAX_RANKS)%nat →
  (length (valid_lines fp) ≤ size)%nat →
  ((length (valid_lines fp) < MAX_RANKS)%nat
   ∨ (ends_with_valid fp ∧ ¬ lone_LF fp)) →
  (rank < size)%nat →
  ((rank < length (valid_lines fp))%nat →
   assignment w arg size rank = valid_lines fp !! rank)
  ∧ ((length (valid_lines fp) < rank)%nat →
     assignment w arg size rank = Some [])
  ∧ (rank = length (valid_lines fp) →
     rank = 0%nat ∨ ¬ ends_with_comment fp ∨ lone_LF fp →
     assignment w arg size rank = Some [])
  ∧ sent_to 0 (distribute (w 0%nat) arg 0 size None).1 = None.
Proof.
  intros Hopen Htext Hsize Hk Hroom Hrank.
  destruct (read_roster fp Htext)
    as (t & commands & Hread & Hlen & Hlow & Hhigh & Hat).
  { destruct Hroom as [Hlt | [Hv Hl]]; [by left | right; split; [lia | done]]. }
  assert (size ≤ length commands)%nat as Hfit by lia.
  rewrite (assignment_rows w arg size rank fp t commands _ Hopen Hread Hfit Hrank).
  rewrite (distribute_coordinator _ _ _ None _ _ _ _ Hopen Hread Hfit).
  assert (∀ i row, commands !! i = Some row → commands !!! i = row) as Htotal.
  { intros i row Hi. by apply list_lookup_total_correct. }
  split; [| split; [| split]].
  - intros Hlt. destruct (lookup_lt_is_Some_2 (valid_lines fp) rank Hlt) as [row Hrow].
    rewrite Hrow. f_equal. rewrite <- Hlow in Hrow by done.
    destruct (decide (rank = 0%nat)) as [-> | Hne]; [| by apply Htotal].
    rewrite decide_True by lia. by apply Htotal.
  - intros Hgt. rewrite decide_False by lia. f_equal.
    apply Htotal, Hhigh. lia.
  - intros -> Hnc. f_equal.
    destruct (decide (length (valid_lines fp) = 0%nat)) as [H0 | Hne].
    + rewrite H0. by rewrite decide_False by lia.
    + apply Htotal, Hat; [lia |]. destruct Hnc as [? | Hnc]; done.
  - cbn [fst]. rewrite sent_to_coordinator.
    + by rewrite decide_False by lia.
    + by apply read_commands_events in Hread.
Qed.

(** ** The events of one process *)

Section Events.

Lemma elem_of_bind {A B} (m : prog A) (k : A → prog B) (e : event) :
  e ∈ (m ≫= k).1 → e ∈ m.1 ∨ ∃ a, m.2 = Next a ∧ e ∈ (k a).1.
Proof.
  destruct m as [t [a | o]]; simpl.
  - destruct (k a) as [t' r] eqn:Hk. simpl. intros He.
    apply elem_of_app in He as [He | He]; [by left |].
    right. exists a. by rewrite Hk.
  - by left.
Qed.

Lemma run_system_eq (w : world) (rank : nat) (mycmd : cstring) :
  run_system w rank mycmd =
  if decide (system w mycmd ≠ 0) then
    ([System mycmd; CommandFailed rank (exitcode (system w mycmd)) mycmd],
     Stop (Abort (exitcode (system w mycmd))))
  else ([System mycmd], Next tt).
Proof. unfold run_system. by destruct (decide (system w mycmd ≠ 0)). Qed.

Lemma send_commands_events (commands : list cstring) (ranks : list nat) :
  ∀ e, e ∈ (send_commands commands ranks).1 → ∃ dest buf, e = Send dest buf.
Proof.
  induction ranks as [|i ranks IH]; intros e He.
  - by apply elem_of_nil in He.
  - cbn [send_commands] in He. destruct (commands !! i) as [row |].
    + rewrite bind_emit_fst in He. apply elem_of_cons in He as [-> | He];
        [by eexists _, _ | by apply IH].
    + by apply elem_of_nil in He.
Qed.

(** The events of the distribution: calls of [fgets], the message for a
    file that cannot be opened, the warning, which needs more rows than
    ranks, and the messages. *)
Lemma distribute_events (w : world) (arg : cstring) (rank size : nat)
    (inbox : option cstring) (e : event) :
  e ∈ (distribute w arg rank size inbox).1 →
  match e with
  | Fgets _ _ | FileNotFound _ | Send _ _ | Recv _ => True
  | ExtraIgnored n s => s = size ∧ (size < n ≤ MAX_RANKS)%nat
  | _ => False
  end.
Proof.
  unfold distribute. intros He.
  apply elem_of_bind in He as [He | ([commands n] & Hread & He)].
  - destruct (decide (rank = 0%nat)); [| by apply elem_of_nil in He].
    destruct (fopen w arg) as [fp |].
    + pose proof (read_commands_trace (S (length fp)) fp
                    (replicate MAX_RANKS []) 0) as Ht.
      rewrite Forall_forall in Ht. apply Ht in He. by destruct e.
    + apply list_elem_of_singleton in He as ->. done.
  - destruct (decide (rank = 0%nat)) as [-> | Hne].
    + destruct (fopen w arg) as [fp |]; [| done].
      destruct (read_commands _ _ _ fp) as [t r] eqn:Hrun.
      cbn [snd] in Hread. subst r.
      apply read_commands_bound in Hrun as [Hn _]; [| lia].
      apply elem_of_bind in He as [He | (_ & _ & He)].
      * destruct (decide (size < n)%nat); [| by apply elem_of_nil in He].
        apply list_elem_of_singleton in He as ->. split; [done | lia].
      * apply elem_of_bind in He as [He | (_ & _ & He)];
          [| by apply elem_of_nil in He].
        apply send_commands_events in He as (dest & buf & ->). done.
    + destruct inbox as [buf |]; [| by apply elem_of_nil in He].
      rewrite bind_emit_fst in He. apply elem_of_cons in He as [-> | He]; [done |].
      by apply elem_of_nil in He.
Qed.

Lemma main_finish (m : prog unit) :
  match m ≫= (λ _, @stop unit (Return 0)) with
  | (t, Stop o) => (t, o)
  | (t, Next _) => (t, Return 0)
  end = (m.1, match m.2 with Next _ => Return 0 | Stop o => o end).
Proof.
  destruct m as [t [[] | o]]; [| done].
  rewrite bind_next. cbn [fst snd stop]. by rewrite app_nil_r.
Qed.

(** [main], case by case. *)
Lemma main_usage (w : world) (argv : list cstring) (rank size : nat)
    (inbox : option cstring) :
  length argv ≠ 2%nat →
  main w argv rank size inbox =
  (if decide (rank = 0%nat) then [Usage (argv !!! 0%nat)] else [], Return 1).
Proof.
  intros Hargc. unfold main, main_body. rewrite decide_True by done.
  by destruct (decide (rank = 0%nat)).
Qed.

Lemma main_pattern (w : world) (argv : list cstring) (rank size : nat)
    (inbox : option cstring) (star : nat) :
  length argv = 2%nat →
  strchr (argv !!! 1%nat) STAR = Some star →
  main w argv rank size inbox =
  let scriptfile := resolve_pattern (argv !!! 1%nat) star rank in
  let mycmd := snprintf MAX_LINE (str "bash " ++ scriptfile) in
  if access_F_OK w scriptfile then
    if decide (system w mycmd ≠ 0) then
      ([ExecutingScript rank scriptfile; System mycmd;
        CommandFailed rank (exitcode (system w mycmd)) mycmd],
       Abort (exitcode (system w mycmd)))
    else ([ExecutingScript rank scriptfile; System mycmd], Return 0)
  else ([ScriptNotFound scriptfile], Return 0).
Proof.
  intros Hargc Hstar. unfold main, main_body.
  rewrite decide_False by (by intros ?). rewrite Hstar, main_finish.
  unfold run_script. cbv zeta. destruct (access_F_OK w _); [| done].
  rewrite bind_emit, run_system_eq.
  by destruct (decide (system w _ ≠ 0)).
Qed.

Lemma main_roster (w : world) (argv : list cstring) (rank size : nat)
    (inbox : option cstring) :
  length argv = 2%nat →
  strchr (argv !!! 1%nat) STAR = None →
  main w argv rank size inbox =
  match distribute w (argv !!! 1%nat) rank size inbox with
  | (t, Stop o) => (t, o)
  | (t, Next mycmd) =>
      if negb (Ascii.eqb (first_byte mycmd) NUL) then
        if decide (system w mycmd ≠ 0) then
          (t ++ [ExecutingCommand rank mycmd; System mycmd;
                 CommandFailed rank (exitcode (system w mycmd)) mycmd],
           Abort (exitcode (system w mycmd)))
        else (t ++ [ExecutingCommand rank mycmd; System mycmd], Return 0)
      else (t, Return 0)
  end.
Proof.
  intros Hargc Hstar. unfold main, main_body.
  rewrite decide_False by (by intros ?). rewrite Hstar, main_finish.
  unfold run_roster.
  destruct (distribute w (argv !!! 1%nat) rank size inbox) as [t [mycmd | o]];
    [| done].
  rewrite bind_next. destruct (negb (Ascii.eqb (first_byte mycmd) NUL)).
  - rewrite bind_emit, run_system_eq.
    by destruct (decide (system w mycmd ≠ 0)).
  - cbn [fst snd mret prog_ret]. by rewrite app_nil_r.
Qed.

(** A process calls [system] at most once, as its last step: the status
    decides how it ends. *)
Lemma main_system (w : world) (argv : list cstring) (rank size : nat)
    (inbox : option cstring) (cmd : cstring) :
  System cmd ∈ (main w argv rank size inbox).1 →
  (main w argv rank size inbox).2 =
  if decide (system w cmd ≠ 0) then Abort (exitcode (system w cmd))
  else Return 0.
Proof.
  destruct (decide (length argv = 2%nat)) as [Hargc | Hargc].
  2: { rewrite main_usage by done.
       destruct (decide (rank = 0%nat)); cbn [fst]; intros He.
       - by apply list_elem_of_singleton in He.
       - by apply elem_of_nil in He. }
  destruct (strchr (argv !!! 1%nat) STAR) as [star |] eqn:Hstar.
  - rewrite (main_pattern _ _ _ _ _ star) by done. cbv zeta.
    generalize (snprintf MAX_LINE
                  (str "bash " ++ resolve_pattern (argv !!! 1%nat) star rank)).
    intros mycmd. destruct (access_F_OK w _).
    + destruct (decide (system w mycmd ≠ 0)) as [Hret | Hret]; cbn [fst snd];
        intros He; apply elem_of_cons in He as [[=] | He].
      * apply elem_of_cons in He as [[= <-] | He]; [by rewrite decide_True |].
        by apply list_elem_of_singleton in He.
      * apply list_elem_of_singleton in He as [= <-]. by rewrite decide_False.
    + cbn [fst]. intros He. by apply list_elem_of_singleton in He.
  - rewrite main_roster by done.
    destruct (distribute w (argv !!! 1%nat) rank size inbox) as [t r] eqn:Hd.
    assert (∀ c, System c ∉ t) as Hquiet.
    { intros c Hc.
      apply (distribute_events w (argv !!! 1%nat) rank size inbox (System c)).
      by rewrite Hd. }
    destruct r as [mycmd | o]; [| cbn [fst]; intros He; by apply Hquiet in He].
    destruct (negb (Ascii.eqb (first_byte mycmd) NUL));
      [| cbn [fst]; intros He; by apply Hquiet in He].
    destruct (decide (system w mycmd ≠ 0)) as [Hret | Hret]; cbn [fst snd];
      intros He; apply elem_of_app in He as [He | He];
      try (by apply Hquiet in He); apply elem_of_cons in He as [[=] | He].
    + apply elem_of_cons in He as [[= <-] | He]; [by rewrite decide_True |].
      by apply list_elem_of_singleton in He.
    + apply list_elem_of_singleton in He as [= <-]. by rewrite decide_False.
Qed.

(** The warning of line 95 is printed only with more rows than ranks,
    hence never in a group of MAX_RANKS ranks. *)
Lemma main_warning (w : world) (argv : list cstring) (rank size : nat)
    (inbox : option cstring) (n s : nat) :
  ExtraIgnored n s ∈ (main w argv rank size inbox).1 →
  s = size ∧ (size < n ≤ MAX_RANKS)%nat.
Proof.
  destruct (decide (length argv = 2%nat)) as [Hargc | Hargc].
  2: { rewrite main_usage by done.
       destruct (decide (rank = 0%nat)); cbn [fst]; intros He.
       - by apply list_elem_of_singleton in He.
       - by apply elem_of_nil in He. }
  destruct (strchr (argv !!! 1%nat) STAR) as [star |] eqn:Hstar.
  - rewrite (main_pattern _ _ _ _ _ star) by done. cbv zeta.
    destruct (access_F_OK w _).
    + destruct (decide (system w _ ≠ 0)) as [Hret | Hret]; cbn [fst snd];
        intros He; repeat (apply elem_of_cons in He as [[=] | He]);
        by apply elem_of_nil in He.
    + cbn [fst]. intros He. by apply list_elem_of_singleton in He.
  - rewrite main_roster by done.
    destruct (distribute w (argv !!! 1%nat) rank size inbox) as [t r] eqn:Hd.
    assert (ExtraIgnored n s ∈ t → s = size ∧ (size < n ≤ MAX_RANKS)%nat) as Ht.
    { intros He. apply (distribute_events w (argv !!! 1%nat) rank size inbox
                          (ExtraIgnored n s)). by rewrite Hd. }
    destruct r as [mycmd | o]; [| done].
    destruct (negb (Ascii.eqb (first_byte mycmd) NUL)); [| done].
    destruct (decide (system w mycmd ≠ 0)) as [Hret | Hret]; cbn [fst snd];
      intros He; apply elem_of_app in He as [He | He];
      try (by apply Ht); repeat (apply elem_of_cons in He as [[=] | He]);
      by apply elem_of_nil in He.
Qed.

End Events.

(** ** The group *)

Section Group.

Lemma group_member (w : nat → world) (argv : list cstring) (size rank : nat) :
  (rank < size)%nat →
  (run_group w argv size).*2 !! rank = Some (run_member w argv size rank).2.
Proof.
  intros Hrank. unfold run_group.
  rewrite !list_lookup_fmap, lookup_seq_lt by done. done.
Qed.

Lemma group_member_inv (w : nat → world) (argv : list cstring) (size rank : nat)
    (o : outcome) :
  (run_group w argv size).*2 !! rank = Some o →
  (rank < size)%nat ∧ o = (run_member w argv size rank).2.
Proof.
  intros Hout.
  assert (rank < size)%nat as Hrank.
  { apply lookup_lt_Some in Hout.
    unfold run_group in Hout. by rewrite !length_fmap, length_seq in Hout. }
  rewrite group_member in Hout by done. split; congruence.
Qed.

(** When every member returns 0, the group ends with status 0 and with
    no other status. *)
Lemma group_all_returned (w : nat → world) (argv : list cstring) (size : nat) :
  (0 < size)%nat →
  (∀ r, (r < size)%nat → (run_member w argv size r).2 = Return 0) →
  group_status (run_group w argv size).*2 0
  ∧ ∀ code, group_status (run_group w argv size).*2 code → code = 0.
Proof.
  intros Hsize Hall.
  assert (Forall (λ o, o = Return 0) (run_group w argv size).*2) as Hret.
  { apply Forall_lookup. intros r o Hout.
    apply group_member_inv in Hout as [Hr ->]. by apply Hall. }
  split.
  - apply group_returned; [| done]. intros Hnil.
    apply (f_equal length) in Hnil. unfold run_group in Hnil.
    rewrite !length_fmap, length_seq in Hnil. simpl in Hnil. lia.
  - intros code [r c Hout | c _ Hsame].
    + apply group_member_inv in Hout as [Hr Hout].
      rewrite Hall in Hout by done. done.
    + rewrite Forall_lookup in Hsame.
      pose proof (Hsame 0%nat _ (group_member w argv size 0 Hsize)) as Hc.
      rewrite Hall in Hc by done. congruence.
Qed.

End Group.

(** ** Wait statuses *)

Section WaitStatus.

Lemma W_EXITCODE_exited (c : Z) :
  0 <= c <= 255 →
  W_EXITCODE c 0 = c * 256
  ∧ WIFEXITED (W_EXITCODE c 0) = true
  ∧ WEXITSTATUS (W_EXITCODE c 0) = c.
Proof.
  intros Hc. unfold W_EXITCODE, WIFEXITED, WEXITSTATUS, WTERMSIG.
  rewrite Z.lor_0_r, Z.shiftl_mul_pow2 by lia.
  change (2 ^ 8) with 256. split; [done |]. split.
  - change 127 with (Z.ones 7). rewrite Z.land_ones by lia.
    change (2 ^ 7) with 128. apply Z.eqb_eq.
    replace (c * 256) with ((c * 2) * 128) by lia. by apply Z.mod_mul.
  - change 65280 with (Z.shiftl 255 8).
    replace (c * 256) with (Z.shiftl c 8) by (rewrite Z.shiftl_mul_pow2; lia).
    rewrite <- Z.shiftl_land. change 255 with (Z.ones 8).
    rewrite Z.land_ones, Z.mod_small by lia.
    rewrite Z.shiftr_shiftl_l, Z.sub_diag by lia. apply Z.shiftl_0_r.
Qed.

Lemma exitcode_exited (c : Z) : 0 <= c <= 255 → exitcode (W_EXITCODE c 0) = c.
Proof.
  intros Hc. destruct (W_EXITCODE_exited c Hc) as (_ & Hexited & Hcode).
  unfold exitcode. by rewrite Hexited.
Qed.

Lemma exitcode_abnormal (status : Z) :
  WIFEXITED status = false → status ≠ 0 ∧ exitcode status = -1.
Proof.
  intros Hsig. unfold exitcode. rewrite Hsig. split; [| done].
  by intros ->.
Qed.

(** A status with a signal number in its low seven bits, with or
    without the core-dump bit, is not a normal exit; neither is -1. *)
Lemma WIFEXITED_signal (sig core : Z) :
  1 <= sig <= 127 → core = 0 ∨ core = 128 →
  WIFEXITED (W_EXITCODE 0 sig + core) = false.
Proof.
  intros Hsig Hcore. unfold WIFEXITED, WTERMSIG, W_EXITCODE.
  rewrite Z.shiftl_0_l, Z.lor_0_l.
  change 127 with (Z.ones 7). rewrite Z.land_ones by lia.
  change (2 ^ 7) with 128. apply Z.eqb_neq. destruct Hcore as [-> | ->].
  - rewrite Z.add_0_r, Z.mod_small by lia. lia.
  - replace (sig + 128) with (sig + 1 * 128) by lia.
    rewrite Z.mod_add, Z.mod_small by lia. lia.
Qed.

End WaitStatus.

(** C7.  In pattern mode a member whose resolved path does not exist
    prints the notice and nothing else, runs no command and returns 0;
    when no other member fails either, the group ends with status 0. *)
Theorem missing_script (w : nat → world) (argv : list cstring)
    (size rank star : nat) :
  length argv = 2%nat →
  strchr (argv !!! 1%nat) STAR = Some star →
  (rank < size)%nat →
  access_F_OK (w rank) (resolve_pattern (argv !!! 1%nat) star rank) = false →
  run_member w argv size rank =
    ([ScriptNotFound (resolve_pattern (argv !!! 1%nat) star rank)], Return 0)
  ∧ ((∀ r, (r < size)%nat → r ≠ rank →
           (run_member w argv size r).2 = Return 0) →
     group_status (run_group w argv size).*2 0
     ∧ ∀ code, group_status (run_group w argv size).*2 code → code = 0).
Proof.
  intros Hargc Hstar Hrank Hmissing.
  assert (run_member w argv size rank =
          ([ScriptNotFound (resolve_pattern (argv !!! 1%nat) star rank)],
           Return 0)) as Hrun.
  { unfold run_member. rewrite (main_pattern _ _ _ _ _ star) by done.
    cbv zeta. by rewrite Hmissing. }
  split; [done |]. intros Hothers.
  apply group_all_returned; [lia |]. intros r Hr.
  destruct (decide (r = rank)) as [-> | Hne]; [by rewrite Hrun | by apply Hothers].
Qed.

Lemma missing_script_witness :
  access_F_OK empty_world (resolve_pattern (argv_pattern !!! 1%nat) 4 2) = false
  ∧ run_member (λ _, empty_world) argv_pattern 4 2 =
      ([ScriptNotFound (str "job_2.sh")], Return 0)
  ∧ group_status (run_group (λ _, empty_world) argv_pattern 4).*2 0.
Proof.
  assert (∀ r, (r < 4)%nat →
               run_member (λ _, empty_world) argv_pattern 4 r =
               ([ScriptNotFound
                   (resolve_pattern (argv_pattern !!! 1%nat) 4 r)], Return 0))
    as Hrun.
  { intros r Hr.
    exact (proj1 (missing_script (λ _, empty_world) argv_pattern 4 r 4
                    eq_refl eq_refl Hr eq_refl)). }
  split; [reflexivity |]. split.
  - apply (Hrun 2%nat). repeat constructor.
  - apply (proj2 (missing_script (λ _, empty_world) argv_pattern 4 2 4
                    eq_refl eq_refl ltac:(repeat constructor) eq_refl)).
    intros r Hr _. by rewrite (Hrun r Hr).
Defined.

(** C8.  In roster mode, when rank 0 cannot open the roster, it calls
    MPI_Abort with code 1 before it sends anything; every other member is
    still in its receive, and 1 is the status of the group and its only
    one. *)
Theorem unreadable_roster (w : nat → world) (argv : list cstring) (size : nat) :
  length argv = 2%nat →
  strchr (argv !!! 1%nat) STAR = None →
  fopen (w 0%nat) (argv !!! 1%nat) = None →
  (1 ≤ size)%nat →
  run_member w argv size 0 = ([FileNotFound (argv !!! 1%nat)], Abort 1)
  ∧ (∀ r, (0 < r < size)%nat → run_member w argv size r = ([], Waiting))
  ∧ group_status (run_group w argv size).*2 1
  ∧ ∀ code, group_status (run_group w argv size).*2 code → code = 1.
Proof.
  intros Hargc Hstar Hopen Hsize.
  assert (main (w 0%nat) argv 0 size None
          = ([FileNotFound (argv !!! 1%nat)], Abort 1)) as Hmain.
  { rewrite main_roster by done. unfold distribute.
    rewrite (decide_True (P := (0%nat = 0%nat))) by done. by rewrite Hopen. }
  assert (run_member w argv size 0
          = ([FileNotFound (argv !!! 1%nat)], Abort 1)) as Hzero by done.
  assert (∀ r, (0 < r < size)%nat → run_member w argv size r = ([], Waiting))
    as Hwait.
  { intros r Hr. unfold run_member.
    rewrite decide_False by lia. rewrite Hmain. cbn [fst sent_to].
    rewrite main_roster by done. unfold distribute.
    rewrite (decide_False (P := (r = 0%nat))) by lia. rewrite bind_mret.
    by rewrite (decide_False (P := (r = 0%nat))) by lia. }
  split; [done |]. split; [done |]. split.
  - apply (group_aborted _ 0). by rewrite group_member, Hzero by lia.
  - intros code [r c Hout | c _ Hsame].
    + apply group_member_inv in Hout as [Hr Hout].
      destruct (decide (r = 0%nat)) as [-> | Hne].
      * rewrite Hzero in Hout. by injection Hout as ->.
      * by rewrite Hwait in Hout by lia.
    + rewrite Forall_lookup in Hsame.
      pose proof (Hsame 0%nat _ (group_member w argv size 0 ltac:(lia))) as Hc.
      by rewrite Hzero in Hc.
Qed.

Lemma unreadable_roster_witness :
  run_member (λ _, empty_world) argv_cmdfile 3 0
    = ([FileNotFound (str "cmdfile")], Abort 1)
  ∧ group_status (run_group (λ _, empty_world) argv_cmdfile 3).*2 1.
Proof.
  pose proof (unreadable_roster (λ _, empty_world) argv_cmdfile 3
                eq_refl eq_refl eq_refl ltac:(repeat constructor))
    as (Hzero & _ & Hgroup & _).
  split; [exact Hzero | exact Hgroup].
Defined.

(** ** Pattern mode *)

Section Pattern.

Lemma strchr_split (pre suf : cstring) (c : ascii) :
  c ∉ pre → strchr (pre ++ c :: suf) c = Some (length pre).
Proof.
  induction pre as [|a pre IH]; intros Hpre; simpl.
  - by rewrite Ascii.eqb_refl.
  - apply not_elem_of_cons in Hpre as [Hne Hpre].
    destruct (Ascii.eqb_spec a c) as [-> | _]; [done |].
    by rewrite IH.
Qed.

(** The path built by line 54, before it is cut to the buffer. *)
Lemma resolve_pattern_split (pre suf : cstring) (rank : nat) :
  resolve_pattern (pre ++ STAR :: suf) (length pre) rank =
  take (MAX_LINE - 1) (pre ++ decimal rank ++ suf).
Proof.
  unfold resolve_pattern, snprintf.
  rewrite take_app_length.
  replace (drop (S (length pre)) (pre ++ STAR :: suf)) with suf; [done |].
  rewrite (cons_middle STAR), app_assoc.
  replace (S (length pre)) with (length (pre ++ [STAR]))
    by (rewrite length_app; simpl; lia).
  by rewrite drop_app_length.
Qed.

End Pattern.

(** C6, as stated, fails for a pattern of MAX_LINE bytes: the star is
    the last of them, and the resolved path for rank 0 is the prefix
    without the rank. *)
Lemma pattern_truncated :
  long_pattern = replicate (MAX_LINE - 1) (ascii_of_nat 97) ++ STAR :: []
  ∧ (STAR ∉ replicate (MAX_LINE - 1) (ascii_of_nat 97))
  ∧ resolve_pattern long_pattern (MAX_LINE - 1) 0
    ≠ replicate (MAX_LINE - 1) (ascii_of_nat 97) ++ decimal 0 ++ [].
Proof.
  split; [done |]. split.
  - intros Hin. by apply elem_of_replicate in Hin as [? _].
  - unfold long_pattern.
    pose proof (resolve_pattern_split
                  (replicate (MAX_LINE - 1) (ascii_of_nat 97)) [] 0) as Hres.
    rewrite length_replicate in Hres. rewrite Hres.
    intros Heq. apply (f_equal length) in Heq.
    rewrite length_take, !length_app, length_replicate in Heq.
    simpl in Heq. lia.
Qed.

(** C6, amended.  For an argument [pre ++ "*" ++ suf] with no star in
    [pre], the star found is that one, and the resolved path of rank
    [rank] is [pre], the decimal digits of [rank] and [suf], cut to its
    first MAX_LINE - 1 bytes; it is all of it when it is shorter than
    MAX_LINE bytes.  It is the path the member probes and reports. *)
Theorem pattern_resolution (pre suf : cstring) (rank : nat) :
  STAR ∉ pre →
  strchr (pre ++ STAR :: suf) STAR = Some (length pre)
  ∧ resolve_pattern (pre ++ STAR :: suf) (length pre) rank
    = take (MAX_LINE - 1) (pre ++ decimal rank ++ suf)
  ∧ ((length (pre ++ decimal rank ++ suf) < MAX_LINE)%nat →
     resolve_pattern (pre ++ STAR :: suf) (length pre) rank
     = pre ++ decimal rank ++ suf)
  ∧ ∀ (w : world) (prog : cstring) (size : nat) (inbox : option cstring),
      head (main w [prog; pre ++ STAR :: suf] rank size inbox).1 =
      Some (if access_F_OK w (take (MAX_LINE - 1) (pre ++ decimal rank ++ suf))
            then ExecutingScript rank
                   (take (MAX_LINE - 1) (pre ++ decimal rank ++ suf))
            else ScriptNotFound
                   (take (MAX_LINE - 1) (pre ++ decimal rank ++ suf))).
Proof.
  intros Hpre. pose proof (strchr_split pre suf STAR Hpre) as Hstar.
  split; [done |]. split; [apply resolve_pattern_split |]. split.
  - intros Hlen. rewrite resolve_pattern_split. apply take_ge. lia.
  - intros w prog size inbox.
    rewrite (main_pattern _ _ _ _ _ (length pre)) by done. cbv zeta.
    change ([prog; pre ++ STAR :: suf] !!! 1%nat) with (pre ++ STAR :: suf).
    rewrite resolve_pattern_split.
    destruct (access_F_OK w _); [| done].
    by destruct (decide (system w _ ≠ 0)).
Qed.

Lemma pattern_resolution_witness :
  (STAR ∉ str "wgrib_")
  ∧ resolve_pattern (str "wgrib_*.sh") 6 3 = str "wgrib_3.sh".
Proof.
  assert (STAR ∉ str "wgrib_") as Hpre.
  { intros Hin. apply list_elem_of_In in Hin. simpl in Hin.
    repeat (destruct Hin as [Hin | Hin]; [discriminate Hin |]). done. }
  split; [exact Hpre |].
  exact (proj1 (proj2 (proj2 (pattern_resolution (str "wgrib_") (str ".sh") 3 Hpre)))
           ltac:(vm_compute; lia)).
Defined.

(** ** Roster mode on the example files *)

Section Rosters.

Lemma text_fileb_ok (fp : list ascii) : text_fileb fp = true → text_file fp.
Proof.
  unfold text_fileb, text_file. intros Hb.
  apply andb_true_iff in Hb as [Hnul Hfit]. split.
  - intros Hin. rewrite forallb_forall in Hnul.
    apply list_elem_of_In, Hnul in Hin. by rewrite Ascii.eqb_refl in Hin.
  - apply Forall_forall. intros l Hl. rewrite forallb_forall in Hfit.
    apply list_elem_of_In, Hfit in Hl. by apply Nat.leb_le.
Qed.

Lemma flood_lines (n : nat) :
  lines (flood n) = replicate n [ascii_of_nat 97].
Proof.
  induction n as [|n IH]; [done |].
  change (flood (S n)) with (ascii_of_nat 97 :: LF :: flood n).
  cbn [lines]. change (Ascii.eqb (ascii_of_nat 97) LF) with false.
  change (Ascii.eqb LF LF) with true. cbn iota. by rewrite IH.
Qed.

Lemma flood_text (n : nat) : text_file (flood n).
Proof.
  split.
  - induction n as [|n IH]; [by apply not_elem_of_nil |].
    change (flood (S n)) with (ascii_of_nat 97 :: LF :: flood n).
    apply not_elem_of_cons. split; [done |].
    apply not_elem_of_cons. by split.
  - rewrite flood_lines. apply Forall_replicate.
    rewrite MAX_LINE_eq. simpl. lia.
Qed.

Lemma flood_valid_lines (n : nat) :
  valid_lines (flood n) = replicate n [ascii_of_nat 97].
Proof.
  unfold valid_lines. rewrite flood_lines.
  induction n as [|n IH]; [done |].
  cbn [replicate fmap list_fmap].
  change (trim [ascii_of_nat 97]) with [ascii_of_nat 97].
  rewrite filter_cons_True by done. f_equal. apply IH.
Qed.

(** When the loop stops, so does rank 0, with the events of the loop. *)
Lemma distribute_stop (w : world) (arg : cstring) (size : nat)
    (inbox : option cstring) (fp : list ascii) (o : outcome) :
  fopen w arg = Some fp →
  (read_commands (S (length fp)) (replicate MAX_RANKS []) 0 fp).2 = Stop o →
  distribute w arg 0 size inbox =
  ((read_commands (S (length fp)) (replicate MAX_RANKS []) 0 fp).1, Stop o).
Proof.
  intros Hopen Hstop. unfold distribute.
  rewrite (decide_True (P := (0%nat = 0%nat))) by done. rewrite Hopen.
  destruct (read_commands _ _ _ fp) as [t r]. cbn [fst snd] in *. by subst r.
Qed.

(** With more than MAX_RANKS valid lines in a text file, rank 0 ends in
    the call of [fgets] that stores the line after the MAX_RANKS-th valid
    one in [commands[MAX_RANKS]]. *)
Lemma main_overflow (w : world) (argv : list cstring) (size : nat)
    (fp : list ascii) :
  length argv = 2%nat →
  strchr (argv !!! 1%nat) STAR = None →
  fopen w (argv !!! 1%nat) = Some fp →
  text_file fp →
  (MAX_RANKS < length (valid_lines fp))%nat →
  (main w argv 0 size None).2 = OutOfBounds MAX_RANKS
  ∧ ∃ line,
      last (main w argv 0 size None).1 = Some (Fgets MAX_RANKS (Some line)).
Proof.
  intros Hargc Hstar Hopen Htext Hmany.
  pose proof (read_commands_text (S (length fp)) fp (replicate MAX_RANKS []) 0
                Htext (Nat.lt_succ_diag_r _) (length_replicate _ _)) as Hread.
  rewrite store_lines_overflow in Hread;
    [| lia | by rewrite (rows_valid_lines fp Htext)].
  rewrite main_roster, (distribute_stop _ _ _ _ fp _ Hopen Hread) by done.
  split; [done |]. cbn [fst].
  destruct (read_commands _ _ _ fp) as [t r] eqn:Hrun.
  cbn [fst snd] in *. subst r.
  apply read_commands_overflow in Hrun as [_ Hlast]; [done | lia].
Qed.

(** Messages go to the ranks from 1 to [size - 1] only. *)
Lemma distribute_sends (w : world) (arg : cstring) (rank size : nat)
    (inbox : option cstring) (dest : nat) (buf : cstring) :
  Send dest buf ∈ (distribute w arg rank size inbox).1 →
  (1 ≤ dest < size)%nat.
Proof.
  unfold distribute. intros He.
  apply elem_of_bind in He as [He | ([commands n] & Hread & He)].
  - destruct (decide (rank = 0%nat)); [| by apply elem_of_nil in He].
    destruct (fopen w arg) as [fp |].
    + pose proof (read_commands_trace (S (length fp)) fp
                    (replicate MAX_RANKS []) 0) as Ht.
      rewrite Forall_forall in Ht. by apply Ht in He.
    + by apply list_elem_of_singleton in He.
  - destruct (decide (rank = 0%nat)) as [-> | Hne].
    + apply elem_of_bind in He as [He | (_ & _ & He)].
      * destruct (decide (size < n)%nat); [| by apply elem_of_nil in He].
        by apply list_elem_of_singleton in He.
      * apply elem_of_bind in He as [He | (_ & _ & He)];
          [| by apply elem_of_nil in He].
        apply send_commands_dest in He as [Hdest _].
        apply elem_of_seq in Hdest. lia.
    + destruct inbox as [buf' |]; [| by apply elem_of_nil in He].
      rewrite bind_emit_fst in He. apply elem_of_cons in He as [[=] | He].
      by apply elem_of_nil in He.
Qed.

(** [main] sends what [distribute] sends. *)
Lemma sent_to_main (w : world) (argv : list cstring) (rank size : nat) :
  length argv = 2%nat →
  strchr (argv !!! 1%nat) STAR = None →
  sent_to rank (main w argv 0 size None).1
  = sent_to rank (distribute w (argv !!! 1%nat) 0 size None).1.
Proof.
  intros Hargc Hstar. rewrite main_roster by done.
  destruct (distribute w (argv !!! 1%nat) 0 size None) as [t [mycmd | o]];
    [| done].
  destruct (negb (Ascii.eqb (first_byte mycmd) NUL)); [| done].
  destruct (decide (system w mycmd ≠ 0)); cbn [fst];
    rewrite sent_to_app; by destruct (sent_to rank t).
Qed.

(** In roster mode a member passes its assignment to [system] when the
    assignment is not empty, and calls [system] for nothing else. *)
Lemma member_runs_assignment (w : nat → world) (argv : list cstring)
    (size rank : nat) (mycmd : cstring) :
  length argv = 2%nat →
  strchr (argv !!! 1%nat) STAR = None →
  assignment w (argv !!! 1%nat) size rank = Some mycmd →
  (first_byte mycmd ≠ NUL → System mycmd ∈ (run_member w argv size rank).1)
  ∧ ∀ cmd, System cmd ∈ (run_member w argv size rank).1 →
           cmd = mycmd ∧ first_byte mycmd ≠ NUL.
Proof.
  intros Hargc Hstar Hassign. unfold run_member, assignment in *.
  rewrite sent_to_main by done. rewrite main_roster by done.
  destruct (distribute (w rank) (argv !!! 1%nat) rank size _) as [t r] eqn:Hd.
  assert (∀ c, System c ∉ t) as Hquiet.
  { intros c Hc.
    apply (distribute_events (w rank) (argv !!! 1%nat) rank size
             (if decide (rank = 0%nat) then None
              else sent_to rank
                     (distribute (w 0%nat) (argv !!! 1%nat) 0 size None).1)
             (System c)).
    by rewrite Hd. }
  cbn [snd] in Hassign. destruct r as [cmd0 | o]; [| done].
  injection Hassign as ->.
  destruct (Ascii.eqb_spec (first_byte mycmd) NUL) as [Hnul | Hne]; cbn [negb].
  - split; [done |]. cbn [fst]. intros cmd He. by apply Hquiet in He.
  - split.
    + intros _. destruct (decide (system (w rank) mycmd ≠ 0)); cbn [fst];
        apply elem_of_app; right; apply elem_of_cons; right;
        apply elem_of_cons; by left.
    + intros cmd.
      destruct (decide (system (w rank) mycmd ≠ 0)); cbn [fst]; intros He;
        apply elem_of_app in He as [He | He]; try (by apply Hquiet in He);
        apply elem_of_cons in He as [[=] | He];
        apply elem_of_cons in He as [[= ->] | He]; try done;
        try (by apply elem_of_nil in He);
        by apply list_elem_of_singleton in He.
Qed.

(** A member that is given its assignment and whose command, if it
    runs one, ends with status 0, returns 0. *)
Lemma member_returns (w : nat → world) (argv : list cstring)
    (size rank : nat) :
  length argv = 2%nat →
  (strchr (argv !!! 1%nat) STAR = None →
   is_Some (assignment w (argv !!! 1%nat) size rank)) →
  (∀ cmd, System cmd ∈ (run_member w argv size rank).1 →
          system (w rank) cmd = 0) →
  (run_member w argv size rank).2 = Return 0.
Proof.
  intros Hargc Hassign Hsys. unfold run_member, assignment in *.
  destruct (strchr (argv !!! 1%nat) STAR) as [star |] eqn:Hstar.
  - rewrite (main_pattern _ _ _ _ _ star) in * by done. cbv zeta in *.
    revert Hsys.
    generalize (snprintf MAX_LINE
                  (str "bash " ++ resolve_pattern (argv !!! 1%nat) star rank)).
    intros mycmd Hsys. destruct (access_F_OK (w rank) _); [| done].
    destruct (decide (system (w rank) mycmd ≠ 0)) as [Hret | Hret]; [| done].
    exfalso. apply Hret, Hsys. cbn [fst].
    apply elem_of_cons. right. apply elem_of_cons. by left.
  - specialize (Hassign eq_refl).
    rewrite sent_to_main in * by done. rewrite main_roster in * by done.
    destruct (distribute (w rank) (argv !!! 1%nat) rank size _)
      as [t [mycmd | o]]; cbn [snd] in Hassign; [| by destruct Hassign].
    destruct (negb (Ascii.eqb (first_byte mycmd) NUL)); [| done].
    destruct (decide (system (w rank) mycmd ≠ 0)) as [Hret | Hret]; [| done].
    exfalso. apply Hret, Hsys. cbn [fst].
    apply elem_of_app. right. apply elem_of_cons. right.
    apply elem_of_cons. by left.
Qed.

(** Each message of rank 0 is the row of its destination, and what rank
    0 keeps for itself is row 0. *)
Lemma distribute_rows (w : world) (arg : cstring) (size : nat)
    (fp : list ascii) (t : list event) (commands : list cstring) (n : nat) :
  fopen w arg = Some fp →
  read_commands (S (length fp)) (replicate MAX_RANKS []) 0 fp
    = (t, Next (commands, n)) →
  (∀ dest buf,
     Send dest buf ∈ (distribute w arg 0 size None).1 →
     (1 ≤ dest < size)%nat ∧ commands !! dest = Some buf)
  ∧ ∀ mycmd,
      (distribute w arg 0 size None).2 = Next mycmd →
      mycmd = if decide (0 < n)%nat then commands !!! 0%nat else [].
Proof.
  intros Hopen Hread. split.
  - intros dest buf He. split; [by apply distribute_sends in He |].
    unfold distribute in He.
    rewrite (decide_True (P := (0%nat = 0%nat))) in He by done.
    rewrite Hopen, Hread, bind_next in He.
    rewrite (decide_True (P := (0%nat = 0%nat))) in He by done.
    cbn [fst] in He. apply elem_of_app in He as [He | He].
    + apply read_commands_events in Hread. rewrite Forall_forall in Hread.
      by apply Hread in He.
    + apply elem_of_bind in He as [He | (_ & _ & He)].
      * destruct (decide (size < n)%nat); [| by apply elem_of_nil in He].
        by apply list_elem_of_singleton in He.
      * apply elem_of_bind in He as [He | (_ & _ & He)];
          [| by apply elem_of_nil in He].
        by apply send_commands_dest in He as [_ ?].
  - intros mycmd. unfold distribute.
    rewrite (decide_True (P := (0%nat = 0%nat))) by done.
    rewrite Hopen, Hread, bind_next.
    rewrite (decide_True (P := (0%nat = 0%nat))) by done.
    cbn [snd].
    assert (∀ m : prog unit,
              (m ;; mret (if decide (0 < n)%nat then commands !!! 0%nat else []))
                .2 = Next mycmd →
              mycmd = if decide (0 < n)%nat then commands !!! 0%nat else [])
      as Hlast.
    { intros [ts [[] | o]]; [| done]. rewrite bind_next. by intros [= <-]. }
    destruct (decide (size < n)%nat).
    + rewrite bind_emit_snd. apply Hlast.
    + rewrite bind_mret. apply Hlast.
Qed.

(** With more valid lines than ranks, and fewer than MAX_RANKS of them,
    rank 0 prints the warning. *)
Lemma warning_printed (w : world) (arg : cstring) (size : nat)
    (fp : list ascii) :
  fopen w arg = Some fp →
  text_file fp →
  (size < length (valid_lines fp) < MAX_RANKS)%nat →
  ExtraIgnored (length (valid_lines fp)) size
    ∈ (distribute w arg 0 size None).1.
Proof.
  intros Hopen Htext [Hmore Hroom].
  destruct (read_text_file fp Htext (or_introl Hroom))
    as (t & commands & Hread & Hlen & _).
  rewrite (distribute_coordinator _ _ _ None _ _ _ _ Hopen Hread) by lia.
  cbn [fst]. rewrite decide_True by done.
  apply elem_of_app. right. apply elem_of_cons. by left.
Qed.

End Rosters.

(** C5.  A member whose command ends normally with a code [c] other
    than 0 calls MPI_Abort with [c], which is then a status of the group;
    a member whose command ends abnormally (killed by a signal, or not
    started, when [system] returns -1) calls MPI_Abort with -1, then a
    status of the group; a member whose command ends with code 0 returns
    0.  And when every member is given its assignment and every command
    that is run ends with status 0, every member returns 0, whether it
    ran a command or not, and 0 is the only status of the group. *)
Theorem exit_status_propagation (w : nat → world) (argv : list cstring)
    (size rank : nat) :
  (rank < size)%nat →
  (∀ cmd,
     System cmd ∈ (run_member w argv size rank).1 →
     (∀ c, 1 <= c <= 255 → system (w rank) cmd = W_EXITCODE c 0 →
           (run_member w argv size rank).2 = Abort c
           ∧ group_status (run_group w argv size).*2 c)
     ∧ (WIFEXITED (system (w rank) cmd) = false →
        (run_member w argv size rank).2 = Abort (-1)
        ∧ group_status (run_group w argv size).*2 (-1))
     ∧ (∀ sig core, 1 <= sig <= 127 → core = 0 ∨ core = 128 →
                    system (w rank) cmd = W_EXITCODE 0 sig + core →
                    (run_member w argv size rank).2 = Abort (-1))
     ∧ (system (w rank) cmd = -1 →
        (run_member w argv size rank).2 = Abort (-1))
     ∧ (system (w rank) cmd = W_EXITCODE 0 0 →
        (run_member w argv size rank).2 = Return 0))
  ∧ (length argv = 2%nat →
     (strchr (argv !!! 1%nat) STAR = None →
      ∀ r, (r < size)%nat → is_Some (assignment w (argv !!! 1%nat) size r)) →
     (∀ r cmd, (r < size)%nat → System cmd ∈ (run_member w argv size r).1 →
               system (w r) cmd = 0) →
     (∀ r, (r < size)%nat → (run_member w argv size r).2 = Return 0)
     ∧ group_status (run_group w argv size).*2 0
     ∧ ∀ code, group_status (run_group w argv size).*2 code → code = 0).
Proof.
  intros Hrank. split.
  - intros cmd Hsys. unfold run_member in Hsys. apply main_system in Hsys.
    fold (run_member w argv size rank) in Hsys.
    assert (∀ code, (run_member w argv size rank).2 = Abort code →
                    group_status (run_group w argv size).*2 code) as Hgroup.
    { intros code Hout. apply (group_aborted _ rank).
      by rewrite group_member, Hout by done. }
    assert (WIFEXITED (system (w rank) cmd) = false →
            (run_member w argv size rank).2 = Abort (-1)) as Hsig.
    { intros Hab. apply exitcode_abnormal in Hab as [Hne Hcode].
      by rewrite Hsys, decide_True, Hcode. }
    split; [| split; [| split; [| split]]].
    + intros c Hc Hret.
      assert ((run_member w argv size rank).2 = Abort c) as Hout.
      { rewrite Hsys, Hret, exitcode_exited by lia.
        rewrite decide_True; [done |].
        destruct (W_EXITCODE_exited c) as [-> _]; lia. }
      auto.
    + auto.
    + intros sig core Hs Hcore Hret. apply Hsig. rewrite Hret.
      by apply WIFEXITED_signal.
    + intros Hret. apply Hsig. by rewrite Hret.
    + intros Hret. rewrite Hsys, Hret. by rewrite decide_False by (by intros ?).
  - intros Hargc Hassign Hzero.
    assert (∀ r, (r < size)%nat → (run_member w argv size r).2 = Return 0)
      as Hall.
    { intros r Hr. apply member_returns; [done | |].
      - intros Hstar. by apply Hassign.
      - intros cmd. by apply Hzero. }
    split; [done |]. apply group_all_returned; [lia | done].
Qed.

Lemma exit_status_propagation_witness :
  (System (str "exit 7")
     ∈ (run_member (λ _, roster_world (str "exit 7") exit_seven)
          argv_cmdfile 2 0).1
   ∧ (run_member (λ _, roster_world (str "exit 7") exit_seven)
        argv_cmdfile 2 0).2 = Abort 7)
  ∧ ∀ r, (r < 4)%nat →
         (run_member (λ _, roster_world scenario_A succeed)
            argv_cmdfile 4 r).2 = Return 0.
Proof.
  assert (System (str "exit 7")
            ∈ (run_member (λ _, roster_world (str "exit 7") exit_seven)
                 argv_cmdfile 2 0).1) as Hsys.
  { vm_compute. apply list_elem_of_In. simpl. auto 10. }
  split.
  - split; [exact Hsys |].
    apply (proj1 (proj1 (exit_status_propagation
                           (λ _, roster_world (str "exit 7") exit_seven)
                           argv_cmdfile 2 0 (Nat.lt_0_succ 1))
                    (str "exit 7") Hsys) 7);
      [lia | reflexivity].
  - apply (proj2 (exit_status_propagation
                    (λ _, roster_world scenario_A succeed)
                    argv_cmdfile 4 0 (Nat.lt_0_succ 3)) eq_refl).
    + intros _ r Hr.
      do 4 (destruct r as [|r]; [vm_compute; eauto |]). lia.
    + intros r cmd _ _. reflexivity.
Defined.

(** C1, as stated, fails for a roster whose only line has MAX_LINE
    bytes: there is one valid line and two ranks, and rank 1 is assigned
    the last byte of the line. *)
Lemma long_line_split :
  length (valid_lines long_line) = 1%nat
  ∧ assignment (λ _, roster_world long_line succeed) (str "cmdfile") 2 1
    = Some (str "b").
Proof. split; vm_compute; reflexivity. Qed.

Lemma roster_mapping_witness :
  roster_text full_line
  ∧ valid_lines full_line
    = [replicate (MAX_LINE - 1) (ascii_of_nat 97); str "b"]
  ∧ assignment (λ _, roster_world full_line succeed) (str "cmdfile") 4 1
    = Some (str "b")
  ∧ assignment (λ _, roster_world full_line succeed) (str "cmdfile") 4 2
    = Some [].
Proof.
  assert (roster_text full_line) as Htext
    by (apply roster_textb_ok; vm_compute; reflexivity).
  assert (valid_lines full_line
          = [replicate (MAX_LINE - 1) (ascii_of_nat 97); str "b"]) as Hvalid
    by (vm_compute; reflexivity).
  split; [exact Htext |]. split; [exact Hvalid |].
  assert (1 ≤ 4 ≤ MAX_RANKS)%nat as Hsize by (rewrite MAX_RANKS_eq; lia).
  assert (length (valid_lines full_line) = 2%nat) as Hk
    by (by rewrite Hvalid).
  assert (length (valid_lines full_line) < MAX_RANKS)%nat as Hroom
    by (rewrite Hk, MAX_RANKS_eq; lia).
  split.
  - rewrite (proj1 (roster_mapping (λ _, roster_world full_line succeed)
                      (str "cmdfile") 4 1 full_line eq_refl Htext Hsize
                      ltac:(rewrite Hk; lia) (or_introl Hroom) ltac:(lia))
               ltac:(rewrite Hk; lia)).
    by rewrite Hvalid.
  - apply (proj1 (proj2 (proj2
             (roster_mapping (λ _, roster_world full_line succeed)
                (str "cmdfile") 4 2 full_line eq_refl Htext Hsize
                ltac:(rewrite Hk; lia) (or_introl Hroom) ltac:(lia))))
             (eq_sym Hk)).
    right. left. intros (l & Hl & Hc). vm_compute in Hl.
    injection Hl as <-. vm_compute in Hc. done.
Defined.

(** The first end-to-end scenario of the specification: in a group of
    four, rank 0 runs [echo A], rank 1 runs [echo B], ranks 2 and 3 run
    nothing, and every member returns 0. *)
Example scenario_A_run :
  (run_group (λ _, roster_world scenario_A succeed) argv_cmdfile 4).*2
    = [Return 0; Return 0; Return 0; Return 0]
  ∧ (run_member (λ _, roster_world scenario_A succeed) argv_cmdfile 4 1).1
    = [Recv (str "echo B"); ExecutingCommand 1 (str "echo B");
       System (str "echo B")]
  ∧ (run_member (λ _, roster_world scenario_A succeed) argv_cmdfile 4 2).1
    = [Recv []].
Proof. repeat split; vm_compute; reflexivity. Qed.

(** C2: the code at a roster whose last line is a comment.  The file
    has one valid line, and rank 1 receives the comment, announces it and
    passes it to [system]. *)
Theorem trailing_comment_dispatched :
  valid_lines trailing_comment = [str "echo A"]
  ∧ is_comment (str "# done") = true
  ∧ run_member (λ _, roster_world trailing_comment succeed) argv_cmdfile 2 1
    = ([Recv (str "# done"); ExecutingCommand 1 (str "# done");
        System (str "# done")], Return 0).
Proof. repeat split; vm_compute; reflexivity. Qed.

(** C3, as stated, fails for a roster of two valid lines in a group of
    one: rank 0 reads the second line into row 1 and counts two rows. *)
Lemma parse_beyond_size :
  (main (roster_world two_lines succeed) argv_cmdfile 0 1 None).1
  = [Fgets 0 (Some (str "a" ++ [LF])); Fgets 1 (Some (str "b" ++ [LF]));
     Fgets 2 None; ExtraIgnored 2 1;
     ExecutingCommand 0 (str "a"); System (str "a")].
Proof. vm_compute. reflexivity. Qed.

(** C3, amended.  The loop of rank 0 stops at the end of the file or with
    MAX_RANKS rows, whatever the size of the group: it ends, it never
    counts more than MAX_RANKS rows, and it stores every valid line of a
    roster (no NUL byte, lines of at most MAX_LINE - 1 bytes) that has
    fewer than MAX_RANKS of them, also in the rows from [size] on.  Those
    rows are not dispatched: every message is the row of its
    destination, a rank from 1 to [size - 1], and rank 0 keeps row 0. *)
Theorem parse_limit (w : world) (arg : cstring) (size : nat) (fp : list ascii) :
  fopen w arg = Some fp →
  (read_commands (S (length fp)) (replicate MAX_RANKS []) 0 fp).2
    ≠ Stop OutOfFuel
  ∧ (∀ t commands n,
       read_commands (S (length fp)) (replicate MAX_RANKS []) 0 fp
         = (t, Next (commands, n)) →
       (n ≤ MAX_RANKS)%nat
       ∧ (∀ dest buf,
            Send dest buf ∈ (distribute w arg 0 size None).1 →
            (1 ≤ dest < size)%nat ∧ commands !! dest = Some buf)
       ∧ ∀ mycmd,
           (distribute w arg 0 size None).2 = Next mycmd →
           mycmd = if decide (0 < n)%nat then commands !!! 0%nat else [])
  ∧ (roster_text fp → (length (valid_lines fp) < MAX_RANKS)%nat →
     ∃ t commands,
       read_commands (S (length fp)) (replicate MAX_RANKS []) 0 fp
         = (t, Next (commands, length (valid_lines fp)))
       ∧ ∀ i, (i < length (valid_lines fp))%nat →
              commands !! i = valid_lines fp !! i).
Proof.
  intros Hopen. split; [| split].
  - apply read_commands_fuel. lia.
  - intros t commands n Hrun.
    split; [apply read_commands_bound in Hrun as [Hn _]; lia |].
    by apply (distribute_rows w arg size fp t commands n).
  - intros Htext Hroom.
    destruct (read_roster fp Htext (or_introl Hroom))
      as (t & commands & Hread & _ & Hlow & _).
    by exists t, commands.
Qed.

Lemma parse_limit_witness :
  roster_text two_lines
  ∧ ∃ t commands,
      read_commands (S (length two_lines)) (replicate MAX_RANKS []) 0 two_lines
        = (t, Next (commands, 2%nat))
      ∧ commands !! 1%nat = Some (str "b").
Proof.
  assert (roster_text two_lines) as Htext by (by apply roster_textb_ok).
  split; [exact Htext |].
  destruct (proj2 (proj2
              (parse_limit (roster_world two_lines succeed) (str "cmdfile") 1
                 two_lines eq_refl))
              Htext ltac:(rewrite MAX_RANKS_eq; vm_compute; lia))
    as (t & commands & Hread & Hrows).
  exists t, commands. split; [exact Hread |].
  exact (Hrows 1%nat ltac:(vm_compute; lia)).
Defined.

(** C4: the code in a group of MAX_RANKS ranks.  No run of such a group
    prints the warning; with a roster of MAX_RANKS + 1 valid lines, rank
    0 ends in the write to [commands[MAX_RANKS]], without the warning. *)
Theorem warning_missing_at_capacity :
  length (valid_lines (flood (S MAX_RANKS))) = S MAX_RANKS
  ∧ (main (roster_world (flood (S MAX_RANKS)) succeed)
       argv_cmdfile 0 MAX_RANKS None).2 = OutOfBounds MAX_RANKS
  ∧ ∀ (w : world) (argv : list cstring) (rank : nat) (inbox : option cstring)
      (n s : nat),
      ExtraIgnored n s ∉ (main w argv rank MAX_RANKS inbox).1.
Proof.
  split; [| split].
  - by rewrite flood_valid_lines, length_replicate.
  - eapply proj1, (main_overflow _ _ _ (flood (S MAX_RANKS)));
      [done | done | done | apply flood_text |].
    rewrite flood_valid_lines, length_replicate. lia.
  - intros w argv rank inbox n s He. apply main_warning in He. lia.
Qed.

(** C10: the code at a roster of MAX_RANKS valid lines followed by one
    more line.  The last event of rank 0 is a call of [fgets] that stores
    a line in [commands[MAX_RANKS]], one row past the array. *)
Theorem fgets_past_last_row :
  (main (roster_world (flood (S MAX_RANKS)) succeed) argv_cmdfile 0 2 None).2
    = OutOfBounds MAX_RANKS
  ∧ ∃ line,
      last (main (roster_world (flood (S MAX_RANKS)) succeed)
              argv_cmdfile 0 2 None).1
      = Some (Fgets MAX_RANKS (Some line)).
Proof.
  apply (main_overflow _ _ _ (flood (S MAX_RANKS)));
    [done | done | done | apply flood_text |].
  rewrite flood_valid_lines, length_replicate. lia.
Qed.

(** * Further properties of the code *)

(** ** trim *)

Section TrimAgain.

Lemma skip_ws_id (s : cstring) :
  (∀ c, head s = Some c → is_ws c = false) → skip_ws s = s.
Proof.
  destruct s as [|a s]; [done |]. intros Hhead. simpl.
  by rewrite (Hhead a eq_refl).
Qed.

Lemma chop_ws_id (s : cstring) :
  (∀ c, last s = Some c → is_ws c = false) → chop_ws (length s) s = s.
Proof.
  destruct s as [|a s _] using rev_ind; [done |]. intros Hlast.
  rewrite length_app.
  replace (length s + length [a])%nat with (S (length s)) by (simpl; lia).
  rewrite chop_ws_snoc. by rewrite (Hlast a (last_snoc _ _)).
Qed.

Lemma trim_length (s : cstring) :
  Z.of_nat (length s) <= INT_MAX → (length (trim s) ≤ length s)%nat.
Proof.
  intros Hlen. destruct (trim_split s Hlen) as (l & r & Hs & _).
  rewrite Hs at 2. rewrite !length_app. lia.
Qed.

Lemma trim_head (s : cstring) (c : ascii) :
  Z.of_nat (length s) <= INT_MAX → head (trim s) = Some c → is_ws c = false.
Proof.
  intros Hlen. rewrite (trim_unfold s Hlen). intros Hc.
  destruct (skip_ws s) as [|a p] eqn:Hskip; [done |].
  assert (is_ws a = false) as Ha.
  { apply (skip_ws_head s). by rewrite Hskip. }
  rewrite (chop_ws_head (a :: p) a eq_refl Ha) in Hc. congruence.
Qed.

Lemma trim_last (s : cstring) (c : ascii) :
  Z.of_nat (length s) <= INT_MAX → last (trim s) = Some c → is_ws c = false.
Proof.
  intros Hlen. rewrite (trim_unfold s Hlen). apply chop_ws_last.
Qed.

Lemma trim_id (s : cstring) :
  Z.of_nat (length s) <= INT_MAX →
  (∀ c, head s = Some c → is_ws c = false) →
  (∀ c, last s = Some c → is_ws c = false) →
  trim s = s.
Proof.
  intros Hlen Hhead Hlast. rewrite (trim_unfold s Hlen).
  rewrite (skip_ws_id s Hhead). by apply chop_ws_id.
Qed.

End TrimAgain.

(** X1.  Trimming twice is trimming once, and trim never makes a string
    longer. *)
Theorem trim_idempotent (s : cstring) :
  Z.of_nat (length s) <= INT_MAX →
  trim (trim s) = trim s ∧ (length (trim s) ≤ length s)%nat.
Proof.
  intros Hlen. pose proof (trim_length s Hlen) as Hshort.
  split; [| done]. apply trim_id; [lia | |].
  - intros c. by apply trim_head.
  - intros c. by apply trim_last.
Qed.

Lemma trim_idempotent_witness :
  Z.of_nat (length (str "  echo  A 	")) <= INT_MAX
  ∧ trim (trim (str "  echo  A 	")) = trim (str "  echo  A 	").
Proof.
  assert (Z.of_nat (length (str "  echo  A 	")) <= INT_MAX) as Hlen
    by (vm_compute; discriminate).
  split; [exact Hlen |].
  exact (proj1 (trim_idempotent (str "  echo  A 	") Hlen)).
Defined.

(** ** Exit codes *)

Section ExitCodes.

Lemma WEXITSTATUS_range (status : Z) : 0 <= WEXITSTATUS status <= 255.
Proof.
  unfold WEXITSTATUS. rewrite Z.shiftr_land.
  change (Z.shiftr 65280 8) with (Z.ones 8).
  rewrite Z.land_ones by lia. change (2 ^ 8) with 256.
  pose proof (Z.mod_pos_bound (Z.shiftr status 8) 256). lia.
Qed.

Lemma read_commands_stop (fuel : nat) :
  ∀ fp commands n t o,
    read_commands fuel commands n fp = (t, Stop o) →
    o = OutOfFuel ∨ ∃ row, o = OutOfBounds row.
Proof.
  induction fuel as [|fuel IH]; intros fp commands n t o Hrun.
  - injection Hrun as <- <-. by left.
  - rewrite read_commands_S in Hrun.
    destruct (fgets MAX_LINE fp) as [[chunk rest] |].
    + apply bind_emit_inv in Hrun as (t' & -> & Hrun).
      destruct (decide (MAX_RANKS ≤ n)%nat).
      * injection Hrun as <- <-. right. by eexists.
      * by apply IH in Hrun.
    + by apply bind_emit_inv in Hrun as (t' & -> & [= <- ?]).
Qed.

Lemma send_commands_stop (commands : list cstring) (ranks : list nat) :
  ∀ t o, send_commands commands ranks = (t, Stop o) →
         ∃ row, o = OutOfBounds row.
Proof.
  induction ranks as [|i ranks IH]; intros t o Hrun; [done |].
  cbn [send_commands] in Hrun. destruct (commands !! i) as [row |].
  - apply bind_emit_inv in Hrun as (t' & -> & Hrun). by apply IH in Hrun.
  - injection Hrun as <- <-. by eexists.
Qed.

(** The distribution calls MPI_Abort only for a file that cannot be
    opened. *)
Lemma distribute_abort (w : world) (arg : cstring) (rank size : nat)
    (inbox : option cstring) (t : list event) (code : Z) :
  distribute w arg rank size inbox = (t, Stop (Abort code)) →
  rank = 0%nat ∧ code = 1 ∧ t = [FileNotFound arg] ∧ fopen w arg = None.
Proof.
  unfold distribute. destruct (decide (rank = 0%nat)) as [-> | Hne].
  - destruct (fopen w arg) as [fp |].
    + destruct (read_commands _ _ _ fp) as [t0 [[commands n] | o]] eqn:Hread.
      * rewrite bind_next.
        destruct (send_commands commands (seq 1 (size - 1)))
          as [t1 [[] | o]] eqn:Hsend.
        -- destruct (decide (size < n)%nat);
             [rewrite bind_emit | rewrite bind_mret]; by rewrite bind_next.
        -- apply send_commands_stop in Hsend as [row ->].
           destruct (decide (size < n)%nat);
             [rewrite bind_emit | rewrite bind_mret]; by rewrite bind_stop.
      * rewrite bind_stop. intros [= <- ->].
        apply read_commands_stop in Hread as [? | [row ?]]; done.
    + rewrite bind_emit. cbn [fst snd stop]. by intros [= <- <-].
  - rewrite bind_mret. destruct inbox as [buf |]; [| done].
    by rewrite bind_emit.
Qed.

End ExitCodes.

(** X2.  A process that calls MPI_Abort does so with code 1 after the
    message for a roster that cannot be opened, as rank 0, or with the
    code of a command whose status is not 0, after the message that
    names its rank, the code and the command; the code is -1 or from 0
    to 255. *)
Theorem abort_is_diagnosed (w : world) (argv : list cstring) (rank size : nat)
    (inbox : option cstring) (code : Z) :
  (main w argv rank size inbox).2 = Abort code →
  -1 <= code <= 255
  ∧ ((rank = 0%nat ∧ code = 1
      ∧ fopen w (argv !!! 1%nat) = None
      ∧ (main w argv rank size inbox).1 = [FileNotFound (argv !!! 1%nat)])
     ∨ ∃ cmd, system w cmd ≠ 0
              ∧ code = exitcode (system w cmd)
              ∧ last (main w argv rank size inbox).1
                = Some (CommandFailed rank code cmd)).
Proof.
  assert (∀ status, -1 <= exitcode status <= 255) as Hrange.
  { intros status. unfold exitcode. pose proof (WEXITSTATUS_range status).
    destruct (WIFEXITED status); lia. }
  destruct (decide (length argv = 2%nat)) as [Hargc | Hargc];
    [| by rewrite main_usage by done].
  destruct (strchr (argv !!! 1%nat) STAR) as [star |] eqn:Hstar.
  - rewrite (main_pattern _ _ _ _ _ star) by done. cbv zeta.
    generalize (snprintf MAX_LINE
                  (str "bash " ++ resolve_pattern (argv !!! 1%nat) star rank)).
    intros mycmd. destruct (access_F_OK w _); [| done].
    destruct (decide (system w mycmd ≠ 0)) as [Hret | Hret]; [| done].
    cbn [fst snd]. intros [= <-]. split; [done |]. right. by exists mycmd.
  - rewrite main_roster by done.
    destruct (distribute w (argv !!! 1%nat) rank size inbox)
      as [t [mycmd | o]] eqn:Hd.
    + destruct (negb (Ascii.eqb (first_byte mycmd) NUL)); [| done].
      destruct (decide (system w mycmd ≠ 0)) as [Hret | Hret]; [| done].
      cbn [fst snd]. intros [= <-]. split; [done |]. right. exists mycmd.
      repeat split; [done |].
      by rewrite last_app.
    + cbn [fst snd]. intros ->.
      apply distribute_abort in Hd as (-> & -> & -> & Hopen).
      split; [lia |]. by left.
Qed.

Lemma abort_is_diagnosed_witness :
  (main (roster_world (str "exit 7") exit_seven) argv_cmdfile 0 2 None).2
    = Abort 7
  ∧ last (main (roster_world (str "exit 7") exit_seven) argv_cmdfile 0 2 None).1
    = Some (CommandFailed 0 7 (str "exit 7")).
Proof.
  assert ((main (roster_world (str "exit 7") exit_seven)
             argv_cmdfile 0 2 None).2 = Abort 7) as Hout
    by (vm_compute; reflexivity).
  split; [exact Hout |].
  destruct (abort_is_diagnosed _ _ _ _ _ _ Hout)
    as [_ [(_ & Hone & _) | (cmd & _ & _ & Hlast)]]; [discriminate Hone |].
  rewrite Hlast. revert Hlast. vm_compute. by intros [= <-].
Defined.

(** ** Wrong usage, and what a process returns *)

Section Returns.

Lemma group_all_return (w : nat → world) (argv : list cstring) (size : nat)
    (code : Z) :
  (0 < size)%nat →
  (∀ r, (r < size)%nat → (run_member w argv size r).2 = Return code) →
  group_status (run_group w argv size).*2 code
  ∧ ∀ code', group_status (run_group w argv size).*2 code' → code' = code.
Proof.
  intros Hsize Hall.
  assert (Forall (λ o, o = Return code) (run_group w argv size).*2) as Hret.
  { apply Forall_lookup. intros r o Hout.
    apply group_member_inv in Hout as [Hr ->]. by apply Hall. }
  split.
  - apply group_returned; [| done]. intros Hnil.
    apply (f_equal length) in Hnil. unfold run_group in Hnil.
    rewrite !length_fmap, length_seq in Hnil. simpl in Hnil. lia.
  - intros code' [r c Hout | c _ Hsame].
    + apply group_member_inv in Hout as [Hr Hout].
      rewrite Hall in Hout by done. done.
    + rewrite Forall_lookup in Hsame.
      pose proof (Hsame 0%nat _ (group_member w argv size 0 Hsize)) as Hc.
      rewrite Hall in Hc by done. congruence.
Qed.

End Returns.

(** X3.  With an argument count other than 2 every member returns 1
    without opening a file, sending a message or running a command; only
    rank 0 prints the usage line, and 1 is the one status of the group. *)
Theorem usage_error (w : nat → world) (argv : list cstring) (size rank : nat) :
  length argv ≠ 2%nat →
  (rank < size)%nat →
  run_member w argv size rank
  = (if decide (rank = 0%nat) then [Usage (argv !!! 0%nat)] else [], Return 1)
  ∧ group_status (run_group w argv size).*2 1
  ∧ ∀ code, group_status (run_group w argv size).*2 code → code = 1.
Proof.
  intros Hargc Hrank.
  assert (∀ r, run_member w argv size r
               = (if decide (r = 0%nat) then [Usage (argv !!! 0%nat)] else [],
                  Return 1)) as Hrun.
  { intros r. unfold run_member. by rewrite main_usage. }
  split; [done |]. apply group_all_return; [lia |].
  intros r _. by rewrite Hrun.
Qed.

Lemma usage_error_witness :
  length [str "rank_run.x"] ≠ 2%nat
  ∧ run_member (λ _, empty_world) [str "rank_run.x"] 3 1 = ([], Return 1)
  ∧ group_status (run_group (λ _, empty_world) [str "rank_run.x"] 3).*2 1.
Proof.
  assert (length [str "rank_run.x"] ≠ 2%nat) as Hargc by discriminate.
  split; [exact Hargc |].
  destruct (usage_error (λ _, empty_world) [str "rank_run.x"] 3 1 Hargc
              ltac:(repeat constructor)) as (Hrun & Hgroup & _).
  split; [exact Hrun | exact Hgroup].
Defined.

(** X4.  A process returns 1 only for a wrong argument count, and 0 only
    with two arguments and after no command that ended with a status
    other than 0; it returns no other code. *)
Theorem return_codes (w : world) (argv : list cstring) (rank size : nat)
    (inbox : option cstring) (code : Z) :
  (main w argv rank size inbox).2 = Return code →
  (code = 1 ∧ length argv ≠ 2%nat)
  ∨ (code = 0 ∧ length argv = 2%nat
     ∧ ∀ cmd, System cmd ∈ (main w argv rank size inbox).1 → system w cmd = 0).
Proof.
  intros Hret.
  destruct (decide (length argv = 2%nat)) as [Hargc | Hargc].
  - right.
    assert (∀ cmd, System cmd ∈ (main w argv rank size inbox).1 →
                   system w cmd = 0) as Hsys.
    { intros cmd Hcmd. apply main_system in Hcmd. rewrite Hret in Hcmd.
      destruct (decide (system w cmd ≠ 0)) as [Hne | Heq]; [done |].
      by apply dec_stable in Heq. }
    split; [| done]. revert Hret.
    destruct (strchr (argv !!! 1%nat) STAR) as [star |] eqn:Hstar.
    + rewrite (main_pattern _ _ _ _ _ star) by done. cbv zeta.
      destruct (access_F_OK w _); [| by intros [= <-]].
      destruct (decide (system w _ ≠ 0)); [done | by intros [= <-]].
    + rewrite main_roster by done.
      destruct (distribute w (argv !!! 1%nat) rank size inbox)
        as [t [mycmd | o]] eqn:Hd.
      * destruct (negb (Ascii.eqb (first_byte mycmd) NUL));
          [| by intros [= <-]].
        destruct (decide (system w mycmd ≠ 0)); [done | by intros [= <-]].
      * cbn [snd]. intros ->. exfalso.
        assert (∀ t0 c, distribute w (argv !!! 1%nat) rank size inbox
                        ≠ (t0, Stop (Return c))) as Hno; [| by eapply Hno].
        clear. intros t0 c. unfold distribute.
        destruct (decide (rank = 0%nat)) as [-> | Hne].
        -- destruct (fopen w (argv !!! 1%nat)) as [fp |];
             [| by rewrite bind_emit].
           destruct (read_commands _ _ _ fp) as [t1 [[commands n] | o]] eqn:Hread.
           ++ rewrite bind_next.
              destruct (send_commands commands (seq 1 (size - 1)))
                as [t2 [[] | o]] eqn:Hsend.
              ** destruct (decide (size < n)%nat);
                   [rewrite bind_emit | rewrite bind_mret]; by rewrite bind_next.
              ** apply send_commands_stop in Hsend as [row ->].
                 destruct (decide (size < n)%nat);
                   [rewrite bind_emit | rewrite bind_mret]; by rewrite bind_stop.
           ++ rewrite bind_stop. intros [= <- ->].
              apply read_commands_stop in Hread as [? | [row ?]]; done.
        -- rewrite bind_mret. destruct inbox as [buf |]; [| done].
           by rewrite bind_emit.
  - left. rewrite main_usage in Hret by done. injection Hret as <-. done.
Qed.

Lemma return_codes_witness :
  (main (roster_world scenario_A succeed) argv_cmdfile 0 4 None).2 = Return 0
  ∧ system (roster_world scenario_A succeed) (str "echo A") = 0.
Proof.
  assert ((main (roster_world scenario_A succeed) argv_cmdfile 0 4 None).2
          = Return 0) as Hret by (vm_compute; reflexivity).
  split; [exact Hret |].
  destruct (return_codes _ _ _ _ _ _ Hret) as [[Hone _] | (_ & _ & Hsys)];
    [discriminate Hone |].
  apply Hsys. vm_compute. apply list_elem_of_In. simpl.
  repeat (first [left; reflexivity | right]).
Defined.

(** ** Pattern mode needs no other member *)

Section PatternLocal.

Lemma strchr_elem (s : cstring) (c : ascii) :
  c ∈ s → ∃ i, strchr s c = Some i.
Proof.
  induction s as [|a s IH]; intros Hin; [by apply elem_of_nil in Hin |].
  simpl. destruct (Ascii.eqb_spec a c) as [-> | Hne]; [by eexists |].
  apply elem_of_cons in Hin as [-> | Hin]; [done |].
  destruct (IH Hin) as [i ->]. by eexists.
Qed.

Lemma strchr_None (s : cstring) (c : ascii) : strchr s c = None → c ∉ s.
Proof.
  intros Hnone Hin. apply strchr_elem in Hin as [i Hi]. congruence.
Qed.

Lemma decimal_inj (n m : nat) : decimal n = decimal m → n = m.
Proof.
  unfold decimal, str. intros Heq.
  apply (f_equal string_of_list_ascii) in Heq.
  rewrite !string_of_list_ascii_of_string in Heq.
  assert (∀ k, Nat.to_uint k ≠ Decimal.Nil) as Hnonnil.
  { intros k Hk. pose proof (Unsigned.to_of (Nat.to_uint k)) as Hnorm.
    rewrite Unsigned.of_to, Hk in Hnorm. discriminate Hnorm. }
  apply (f_equal NilZero.uint_of_string) in Heq.
  rewrite !NilZero.usu in Heq by apply Hnonnil.
  injection Heq as Heq. by apply Unsigned.to_uint_inj.
Qed.

End PatternLocal.

(** X5.  With a star in its argument a process neither opens the roster
    nor sends or receives a message: its events are the notice of a
    missing script, or the announcement of the script, the call of
    [system] and the message of a failure; and its run is the same
    whatever the size of the group and whatever the other members do. *)
Theorem pattern_mode_local (w : world) (argv : list cstring)
    (rank size size' : nat) (inbox inbox' : option cstring) :
  length argv = 2%nat →
  STAR ∈ argv !!! 1%nat →
  main w argv rank size inbox = main w argv rank size' inbox'
  ∧ ∀ e, e ∈ (main w argv rank size inbox).1 →
         match e with
         | ExecutingScript r _ | CommandFailed r _ _ => r = rank
         | ScriptNotFound _ | System _ => True
         | _ => False
         end.
Proof.
  intros Hargc Hstar. apply strchr_elem in Hstar as [star Hstar].
  rewrite !(main_pattern _ _ _ _ _ star) by done. split; [done |].
  cbv zeta. intros e.
  destruct (access_F_OK w _).
  - destruct (decide (system w _ ≠ 0)); cbn [fst]; intros He;
      repeat (apply elem_of_cons in He as [-> | He]; [done |]);
      by apply elem_of_nil in He.
  - cbn [fst]. intros He. by apply list_elem_of_singleton in He as ->.
Qed.

Lemma pattern_mode_local_witness :
  (STAR ∈ argv_pattern !!! 1%nat)
  ∧ main empty_world argv_pattern 2 4 None
    = main empty_world argv_pattern 2 9 (Some (str "echo A")).
Proof.
  assert (STAR ∈ argv_pattern !!! 1%nat) as Hstar.
  { apply list_elem_of_In. vm_compute.
    repeat (first [left; reflexivity | right]). }
  split; [exact Hstar |].
  exact (proj1 (pattern_mode_local empty_world argv_pattern 2 4 9 None
                  (Some (str "echo A")) eq_refl Hstar)).
Defined.

(** X6.  Paths that are not cut by the buffer tell the ranks apart: two
    ranks whose resolved paths are shorter than MAX_LINE bytes and equal
    are the same rank. *)
Theorem pattern_paths_distinct (arg : cstring) (star r1 r2 : nat) :
  (length (take star arg ++ decimal r1 ++ drop (S star) arg) < MAX_LINE)%nat →
  (length (take star arg ++ decimal r2 ++ drop (S star) arg) < MAX_LINE)%nat →
  resolve_pattern arg star r1 = resolve_pattern arg star r2 →
  r1 = r2.
Proof.
  intros Hlen1 Hlen2. unfold resolve_pattern, snprintf.
  rewrite (take_ge (take star arg ++ decimal r1 ++ drop (S star) arg)) by lia.
  rewrite (take_ge (take star arg ++ decimal r2 ++ drop (S star) arg)) by lia.
  intros Heq.
  apply app_inv_head, app_inv_tail in Heq. by apply decimal_inj.
Qed.

Lemma pattern_paths_distinct_witness :
  resolve_pattern (str "job_*.sh") 4 2 ≠ resolve_pattern (str "job_*.sh") 4 12.
Proof.
  intros Heq.
  assert (2 = 12)%nat as Hranks; [| discriminate Hranks].
  apply (pattern_paths_distinct (str "job_*.sh") 4 2 12);
    [rewrite MAX_LINE_eq; vm_compute; lia
    | rewrite MAX_LINE_eq; vm_compute; lia | exact Heq].
Defined.

(** X7.  A process calls [system] at most once, and right after the
    announcement of what it runs: in roster mode the announcement names
    its rank and the command itself; in pattern mode it names the rank
    and the path that was probed, and the command is [bash] and that
    path, cut to MAX_LINE - 1 bytes; nothing but the message of a
    failure follows. *)
Theorem system_is_announced (w : world) (argv : list cstring) (rank size : nat)
    (inbox : option cstring) (cmd : cstring) :
  System cmd ∈ (main w argv rank size inbox).1 →
  ∃ t a t',
    (main w argv rank size inbox).1 = t ++ a :: System cmd :: t'
    ∧ (∀ c, System c ∉ t)
    ∧ (t' = [] ∨ t' = [CommandFailed rank (exitcode (system w cmd)) cmd])
    ∧ (a = ExecutingCommand rank cmd
       ∨ ∃ path, a = ExecutingScript rank path
                 ∧ access_F_OK w path = true
                 ∧ cmd = take (MAX_LINE - 1) (str "bash " ++ path)).
Proof.
  destruct (decide (length argv = 2%nat)) as [Hargc | Hargc].
  2: { rewrite main_usage by done.
       destruct (decide (rank = 0%nat)); cbn [fst]; intros He.
       - by apply list_elem_of_singleton in He.
       - by apply elem_of_nil in He. }
  destruct (strchr (argv !!! 1%nat) STAR) as [star |] eqn:Hstar.
  - rewrite (main_pattern _ _ _ _ _ star) by done. cbv zeta.
    destruct (access_F_OK w (resolve_pattern (argv !!! 1%nat) star rank))
      eqn:Haccess.
    + remember (snprintf MAX_LINE
                  (str "bash " ++ resolve_pattern (argv !!! 1%nat) star rank))
        as mycmd eqn:Hmycmd.
      unfold snprintf in Hmycmd.
      destruct (decide (system w mycmd ≠ 0)) as [Hret | Hret]; cbn [fst];
        intros He; apply elem_of_cons in He as [[=] | He].
      * apply elem_of_cons in He as [[= <-] | He];
          [| by apply list_elem_of_singleton in He].
        exists [], (ExecutingScript rank
                      (resolve_pattern (argv !!! 1%nat) star rank)),
          [CommandFailed rank (exitcode (system w cmd)) cmd].
        repeat split; [by intros c Hc%elem_of_nil | by right |].
        right. by eexists.
      * apply list_elem_of_singleton in He as [= <-].
        exists [], (ExecutingScript rank
                      (resolve_pattern (argv !!! 1%nat) star rank)), [].
        repeat split; [by intros c Hc%elem_of_nil | by left |].
        right. by eexists.
    + cbn [fst]. intros He. by apply list_elem_of_singleton in He.
  - rewrite main_roster by done.
    destruct (distribute w (argv !!! 1%nat) rank size inbox) as [t r] eqn:Hd.
    assert (∀ c, System c ∉ t) as Hquiet.
    { intros c Hc.
      apply (distribute_events w (argv !!! 1%nat) rank size inbox (System c)).
      by rewrite Hd. }
    destruct r as [mycmd | o]; [| cbn [fst]; intros He; by apply Hquiet in He].
    destruct (negb (Ascii.eqb (first_byte mycmd) NUL));
      [| cbn [fst]; intros He; by apply Hquiet in He].
    destruct (decide (system w mycmd ≠ 0)) as [Hret | Hret]; cbn [fst snd];
      intros He; apply elem_of_app in He as [He | He];
      try (by apply Hquiet in He); apply elem_of_cons in He as [[=] | He].
    + apply elem_of_cons in He as [[= <-] | He];
        [| by apply list_elem_of_singleton in He].
      exists t, (ExecutingCommand rank cmd),
        [CommandFailed rank (exitcode (system w cmd)) cmd].
      repeat split; [done | by right | by left].
    + apply list_elem_of_singleton in He as [= <-].
      exists t, (ExecutingCommand rank cmd), [].
      repeat split; [done | by left | by left].
Qed.

Lemma system_is_announced_witness :
  System (str "echo B")
    ∈ (main (roster_world scenario_A succeed) argv_cmdfile 1 4
         (Some (str "echo B"))).1
  ∧ ∃ t a t',
      (main (roster_world scenario_A succeed) argv_cmdfile 1 4
         (Some (str "echo B"))).1 = t ++ a :: System (str "echo B") :: t'
      ∧ (t' = [] ∨ t' = [CommandFailed 1 (exitcode 0) (str "echo B")]).
Proof.
  assert (System (str "echo B")
            ∈ (main (roster_world scenario_A succeed) argv_cmdfile 1 4
                 (Some (str "echo B"))).1) as Hsys.
  { vm_compute. apply list_elem_of_In. simpl.
    repeat (first [left; reflexivity | right]). }
  split; [exact Hsys |].
  destruct (system_is_announced _ _ _ _ _ _ Hsys)
    as (t & a & t' & Htrace & _ & Htail & _).
  by exists t, a, t'.
Defined.

(** ** What the loop leaves in the array *)

Section Rows.

Lemma read_line_bound (room : nat) :
  ∀ fp chunk rest,
    read_line room fp = (chunk, rest) → (length chunk ≤ room)%nat.
Proof.
  induction room as [|room IH]; intros fp chunk rest Hread.
  - simpl in Hread. destruct fp; by injection Hread as <- <-.
  - destruct fp as [|c fp]; [injection Hread as <- <-; simpl; lia |].
    simpl in Hread. destruct (Ascii.eqb c LF).
    + injection Hread as <- <-. simpl. lia.
    + destruct (read_line room fp) as [l r] eqn:Hrec.
      injection Hread as <- <-. apply IH in Hrec. simpl. lia.
Qed.

Lemma fgets_bound (fp chunk rest : list ascii) :
  fgets MAX_LINE fp = Some (chunk, rest) →
  fp = chunk ++ rest ∧ chunk ≠ [] ∧ (length chunk < MAX_LINE)%nat.
Proof.
  intros Hf. pose proof (fgets_progress _ _ _ Hf) as Hshort.
  unfold fgets in Hf. destruct fp as [|c fp]; [done |].
  injection Hf as Hread.
  pose proof (read_line_length _ _ _ _ Hread) as Hfp.
  pose proof (read_line_bound _ _ _ _ Hread) as Hlen.
  split; [done |]. split.
  - intros ->. rewrite Hfp in Hshort. simpl in Hshort. lia.
  - rewrite MAX_LINE_eq in *. lia.
Qed.

Lemma cstr_length (buf : list ascii) : (length (cstr buf) ≤ length buf)%nat.
Proof.
  induction buf as [|c buf IH]; simpl; [lia |].
  destruct (Ascii.eqb c NUL); simpl; lia.
Qed.

Lemma cstr_no_NUL (buf : list ascii) : NUL ∉ cstr buf.
Proof.
  induction buf as [|c buf IH]; simpl; [by apply not_elem_of_nil |].
  destruct (Ascii.eqb_spec c NUL) as [-> | Hne]; [by apply not_elem_of_nil |].
  apply not_elem_of_cons. by split.
Qed.

Lemma row_ok_nil : row_ok [].
Proof.
  split; [rewrite MAX_LINE_eq; simpl; lia |].
  split; [by apply not_elem_of_nil | done].
Qed.

(** The row made of a line [fgets] stored. *)
Lemma row_ok_trim (fp chunk rest : list ascii) :
  fgets MAX_LINE fp = Some (chunk, rest) → row_ok (trim (cstr chunk)).
Proof.
  intros Hf. apply fgets_bound in Hf as (_ & _ & Hlen).
  pose proof (cstr_length chunk) as Hc.
  assert (Z.of_nat (length (cstr chunk)) <= INT_MAX) as Hint.
  { rewrite MAX_LINE_eq in Hlen. unfold INT_MAX. lia. }
  pose proof (trim_length _ Hint) as Ht.
  split; [lia |]. split.
  - intros Hin. apply (cstr_no_NUL chunk). by apply trim_elem.
  - apply trim_id; [lia | |].
    + intros c. by apply trim_head.
    + intros c. by apply trim_last.
Qed.

(** The invariant of the loop of lines 83-87. *)
Lemma read_commands_rows (fuel : nat) :
  ∀ fp commands n t commands' n',
    length commands = MAX_RANKS →
    Forall row_ok commands →
    (∀ i, (i < n)%nat → ∃ row, commands !! i = Some row ∧ qualifies row = true) →
    (∀ i, (n < i < MAX_RANKS)%nat → commands !! i = Some []) →
    read_commands fuel commands n fp = (t, Next (commands', n')) →
    Forall row_ok commands'
    ∧ (∀ i, (i < n')%nat →
            ∃ row, commands' !! i = Some row ∧ qualifies row = true)
    ∧ (∀ i, (n' < i < MAX_RANKS)%nat → commands' !! i = Some []).
Proof.
  induction fuel as [|fuel IH];
    intros fp commands n t commands' n' Hlen Hok Hlow Hhigh Hrun; [done |].
  rewrite read_commands_S in Hrun.
  destruct (fgets MAX_LINE fp) as [[chunk rest] |] eqn:Hf.
  2: { by apply bind_emit_inv in Hrun as (t' & -> & [= <- <- <-]). }
  apply bind_emit_inv in Hrun as (t' & -> & Hrun).
  destruct (decide (MAX_RANKS ≤ n)%nat) as [Hge | Hlt]; [done |].
  rewrite alter_trim_insert in Hrun.
  rewrite list_lookup_total_insert_eq in Hrun by lia.
  apply IH in Hrun; [done | by rewrite length_insert | | |].
  - apply Forall_insert; [done |]. by apply (row_ok_trim fp chunk rest).
  - intros i Hi. destruct (qualifies (trim (cstr chunk))) eqn:Hq.
    + destruct (decide (i = n)) as [-> | Hne].
      * exists (trim (cstr chunk)).
        by rewrite list_lookup_insert_eq by lia.
      * rewrite list_lookup_insert_ne by done. apply Hlow. lia.
    + rewrite list_lookup_insert_ne by lia. by apply Hlow.
  - intros i Hi. rewrite list_lookup_insert_ne.
    + apply Hhigh. destruct (qualifies _); lia.
    + destruct (qualifies _); lia.
Qed.

End Rows.

(** X8.  Whatever the bytes of the roster, when the loop of rank 0 ends
    the array still has MAX_RANKS rows and every row is a C string that
    fits its MAX_LINE bytes with the final NUL, holds no NUL byte and
    has no whitespace at either end (trim leaves it as it is). *)
Theorem stored_rows_fit (fp : list ascii) (t : list event)
    (commands : list cstring) (n : nat) :
  read_commands (S (length fp)) (replicate MAX_RANKS []) 0 fp
    = (t, Next (commands, n)) →
  length commands = MAX_RANKS ∧ Forall row_ok commands.
Proof.
  intros Hrun. split.
  - apply read_commands_bound in Hrun as [_ Hlen]; [| lia].
    by rewrite Hlen, length_replicate.
  - apply read_commands_rows in Hrun as (Hok & _);
      [done | apply length_replicate | | intros i Hi; lia |].
    + apply Forall_replicate, row_ok_nil.
    + intros i Hi. apply lookup_replicate_2. lia.
Qed.

Lemma stored_rows_fit_witness :
  ∃ t commands n,
    read_commands (S (length trailing_comment)) (replicate MAX_RANKS []) 0
      trailing_comment = (t, Next (commands, n))
    ∧ Forall row_ok commands.
Proof.
  destruct (read_text_file trailing_comment
              ltac:(by apply text_fileb_ok))
    as (t & commands & Hread & _).
  { left. rewrite MAX_RANKS_eq. vm_compute. lia. }
  exists t, commands, (length (valid_lines trailing_comment)).
  split; [exact Hread |].
  exact (proj2 (stored_rows_fit trailing_comment t commands _ Hread)).
Defined.

(** X9.  Whatever the bytes of the roster, when the loop of rank 0 ends
    with [n] rows counted and the group has at most MAX_RANKS ranks,
    every rank below [n] is assigned a command that is not empty and
    does not start with [#], and every rank above [n] is assigned the
    empty command: a line the loop rejected can reach rank [n] only. *)
Theorem assignments_around_count (w : nat → world) (arg : cstring)
    (size rank : nat) (fp : list ascii) (t : list event)
    (commands : list cstring) (n : nat) :
  fopen (w 0%nat) arg = Some fp →
  read_commands (S (length fp)) (replicate MAX_RANKS []) 0 fp
    = (t, Next (commands, n)) →
  (size ≤ MAX_RANKS)%nat →
  (rank < size)%nat →
  (n ≤ MAX_RANKS)%nat
  ∧ ∃ mycmd, assignment w arg size rank = Some mycmd
    ∧ row_ok mycmd
    ∧ ((rank < n)%nat → mycmd ≠ [] ∧ first_byte mycmd ≠ HASH)
    ∧ ((n < rank)%nat → mycmd = []).
Proof.
  intros Hopen Hrun Hsize Hrank.
  pose proof (read_commands_bound _ _ _ _ _ _ _ (Nat.le_0_l _) Hrun)
    as [[_ Hn] Hlen].
  rewrite length_replicate in Hlen.
  assert (Forall row_ok commands
          ∧ (∀ i, (i < n)%nat →
                  ∃ row, commands !! i = Some row ∧ qualifies row = true)
          ∧ (∀ i, (n < i < MAX_RANKS)%nat → commands !! i = Some []))
    as (Hok & Hlow & Hhigh).
  { apply (read_commands_rows (S (length fp)) fp (replicate MAX_RANKS []) 0 t);
      [apply length_replicate | | intros i Hi; lia | | done].
    - apply Forall_replicate, row_ok_nil.
    - intros i Hi. apply lookup_replicate_2. lia. }
  split; [done |].
  rewrite (assignment_rows w arg size rank fp t commands n Hopen Hrun)
    by lia.
  assert (∀ i, (i < MAX_RANKS)%nat → row_ok (commands !!! i)) as Hrow.
  { intros i Hi. rewrite Forall_lookup in Hok.
    destruct (lookup_lt_is_Some_2 commands i) as [row Hi']; [lia |].
    rewrite (list_lookup_total_correct _ _ _ Hi'). by apply (Hok i). }
  assert (∀ row, qualifies row = true → row ≠ [] ∧ first_byte row ≠ HASH)
    as Hq.
  { intros [|c row] Hrowq; [done |]. split; [done |].
    unfold qualifies in Hrowq. simpl in *.
    apply andb_true_iff in Hrowq as [_ Hc].
    intros ->. by rewrite Ascii.eqb_refl in Hc. }
  eexists. split; [done |].
  destruct (decide (rank = 0%nat)) as [-> | Hne].
  - destruct (decide (0 < n)%nat) as [Hpos | Hzero].
    + split; [apply Hrow; lia |]. split; [| lia]. intros _.
      destruct (Hlow 0%nat Hpos) as (row & Hrow0 & Hrowq).
      rewrite (list_lookup_total_correct _ _ _ Hrow0). by apply Hq.
    + split; [apply row_ok_nil |]. split; [lia | done].
  - split; [apply Hrow; lia |]. split.
    + intros Hlt. destruct (Hlow rank Hlt) as (row & Hrow0 & Hrowq).
      rewrite (list_lookup_total_correct _ _ _ Hrow0). by apply Hq.
    + intros Hgt. apply list_lookup_total_correct, Hhigh. lia.
Qed.

Lemma assignments_around_count_witness :
  ∃ mycmd,
    assignment (λ _, roster_world trailing_comment succeed) (str "cmdfile") 3 2
      = Some mycmd
    ∧ ((1 < 2)%nat → mycmd = []).
Proof.
  destruct (read_text_file trailing_comment
              ltac:(by apply text_fileb_ok))
    as (t & commands & Hread & _).
  { left. rewrite MAX_RANKS_eq. vm_compute. lia. }
  destruct (assignments_around_count
              (λ _, roster_world trailing_comment succeed) (str "cmdfile") 3 2
              trailing_comment t commands _ eq_refl Hread
              ltac:(rewrite MAX_RANKS_eq; lia) ltac:(lia))
    as (_ & mycmd & Hassign & _ & _ & Hhigh).
  exists mycmd. split; [exact Hassign | exact Hhigh].
Defined.

(** ** What the loop reads *)

Section Reads.

Lemma read_commands_chunks (fuel : nat) :
  ∀ fp commands n t r,
    read_commands fuel commands n fp = (t, r) →
    Forall (λ chunk, chunk ≠ [] ∧ (length chunk < MAX_LINE)%nat) (chunks_of t)
    ∧ ∃ rest, fp = mjoin (chunks_of t) ++ rest
              ∧ ∀ a, r = Next a → rest = [].
Proof.
  induction fuel as [|fuel IH]; intros fp commands n t r Hrun.
  - injection Hrun as <- <-. split; [constructor |]. by exists fp.
  - rewrite read_commands_S in Hrun.
    destruct (fgets MAX_LINE fp) as [[chunk rest] |] eqn:Hf.
    + apply bind_emit_inv in Hrun as (t' & -> & Hrun).
      apply fgets_bound in Hf as (-> & Hne & Hlen).
      cbn [chunks_of mjoin list_join].
      destruct (decide (MAX_RANKS ≤ n)%nat).
      * injection Hrun as <- <-. split; [by repeat constructor |].
        exists rest. rewrite app_nil_r. done.
      * apply IH in Hrun as (Hall & rest' & -> & Hnext).
        split; [by constructor |]. exists rest'.
        split; [by rewrite app_assoc | done].
    + apply bind_emit_inv in Hrun as (t' & -> & [= <- <-]).
      split; [constructor |]. exists []. split; [| done].
      unfold fgets in Hf. by destruct fp.
Qed.

End Reads.

(** X10.  The lines [fgets] stores are never empty and fit the line
    buffer; put end to end in the order of the calls they are the start
    of the roster file, and all of it when the loop ends: rank 0 reads
    the file to its end, also past the lines it has ranks for. *)
Theorem parse_reads_whole_file (fp : list ascii) (t : list event)
    (r : result (list cstring * nat)) :
  read_commands (S (length fp)) (replicate MAX_RANKS []) 0 fp = (t, r) →
  Forall (λ chunk, chunk ≠ [] ∧ (length chunk < MAX_LINE)%nat) (chunks_of t)
  ∧ mjoin (chunks_of t) `prefix_of` fp
  ∧ ∀ a, r = Next a → mjoin (chunks_of t) = fp.
Proof.
  intros Hrun.
  apply read_commands_chunks in Hrun as (Hall & rest & Hfp & Hnext).
  split; [done |]. split; [by exists rest |].
  intros a Ha. rewrite (Hnext a Ha), app_nil_r in Hfp. done.
Qed.

Lemma parse_reads_whole_file_witness :
  ∃ t commands,
    read_commands (S (length two_lines)) (replicate MAX_RANKS []) 0 two_lines
      = (t, Next (commands, 2%nat))
    ∧ mjoin (chunks_of t) = two_lines.
Proof.
  destruct (read_text_file two_lines ltac:(by apply text_fileb_ok))
    as (t & commands & Hread & _).
  { left. rewrite MAX_RANKS_eq. vm_compute. lia. }
  exists t, commands. split; [exact Hread |].
  exact (proj2 (proj2 (parse_reads_whole_file two_lines t _ Hread)) _ eq_refl).
Defined.

(** ** Who is sent a message *)

Section Served.

Lemma dests_of_app (t1 t2 : list event) :
  dests_of (t1 ++ t2) = dests_of t1 ++ dests_of t2.
Proof.
  induction t1 as [|e t1 IH]; [done |].
  destruct e; simpl; by rewrite ?IH.
Qed.

Lemma dests_of_fgets (t : list event) :
  Forall (λ e, is_fgets e = true) t → dests_of t = [].
Proof.
  induction 1 as [|e t He Ht IH]; [done |]. by destruct e.
Qed.

Lemma dests_of_sends (f : nat → cstring) (ranks : list nat) :
  dests_of ((λ i, Send i (f i)) <$> ranks) = ranks.
Proof.
  induction ranks as [|i ranks IH]; [done |].
  cbn [fmap list_fmap dests_of]. f_equal. apply IH.
Qed.

(** The loop of lines 97-99 stops at the first rank the array has no
    row for. *)
Lemma send_commands_past (commands : list cstring) (ranks : list nat)
    (i : nat) (ranks' : list nat) :
  Forall (λ j, (j < length commands)%nat) ranks →
  (length commands ≤ i)%nat →
  send_commands commands (ranks ++ i :: ranks') =
  ((λ j, Send j (commands !!! j)) <$> ranks, Stop (OutOfBounds i)).
Proof.
  intros Hin Hout. induction ranks as [|j ranks IH]; cbn [app send_commands].
  - by rewrite lookup_ge_None_2.
  - apply Forall_cons in Hin as [Hj Hin].
    destruct (lookup_lt_is_Some_2 commands j Hj) as [row Hrow].
    rewrite Hrow, bind_emit, (IH Hin). cbn [fst snd fmap list_fmap].
    by rewrite (list_lookup_total_correct _ _ _ Hrow).
Qed.

(** What rank 0 does with more ranks than rows. *)
Lemma distribute_past (w : world) (arg : cstring) (size : nat)
    (inbox : option cstring) (fp : list ascii) (t : list event)
    (commands : list cstring) (n : nat) :
  fopen w arg = Some fp →
  read_commands (S (length fp)) (replicate MAX_RANKS []) 0 fp
    = (t, Next (commands, n)) →
  (MAX_RANKS < size)%nat →
  distribute w arg 0 size inbox =
  (t ++ (if decide (size < n)%nat then [ExtraIgnored n size] else [])
     ++ ((λ i, Send i (commands !!! i)) <$> seq 1 (MAX_RANKS - 1)),
   Stop (OutOfBounds MAX_RANKS)).
Proof.
  intros Hopen Hread Hsize.
  pose proof (read_commands_bound _ _ _ _ _ _ _ (Nat.le_0_l _) Hread)
    as [_ Hlen].
  rewrite length_replicate in Hlen.
  assert (seq 1 (size - 1)
          = seq 1 (MAX_RANKS - 1) ++ MAX_RANKS :: seq (S MAX_RANKS)
                                                   (size - S MAX_RANKS))
    as Hseq.
  { replace (size - 1)%nat
      with ((MAX_RANKS - 1) + S (size - S MAX_RANKS))%nat
      by (rewrite MAX_RANKS_eq in *; lia).
    rewrite seq_app.
    replace (1 + (MAX_RANKS - 1))%nat with MAX_RANKS
      by (rewrite MAX_RANKS_eq; lia).
    done. }
  unfold distribute.
  rewrite (decide_True (P := (0%nat = 0%nat))) by done.
  rewrite Hopen, Hread, bind_next.
  rewrite (decide_True (P := (0%nat = 0%nat))) by done.
  rewrite Hseq, (send_commands_past commands);
    [| apply Forall_forall; intros j Hj; apply elem_of_seq in Hj;
       rewrite MAX_RANKS_eq in *; lia | lia].
  rewrite bind_stop.
  destruct (decide (size < n)%nat); [by rewrite bind_emit | by rewrite bind_mret].
Qed.

Lemma dests_of_coordinator (size n : nat) (t : list event)
    (commands : list cstring) (ranks : list nat) :
  Forall (λ e, is_fgets e = true) t →
  dests_of
    (t ++ (if decide (size < n)%nat then [ExtraIgnored n size] else [])
       ++ ((λ i, Send i (commands !!! i)) <$> ranks)) = ranks.
Proof.
  intros Ht. rewrite !dests_of_app, (dests_of_fgets t Ht), dests_of_sends.
  by destruct (decide (size < n)%nat).
Qed.

End Served.

(** X11.  In roster mode, when the roster opens, the loop of rank 0 ends
    and the group has at most MAX_RANKS ranks, rank 0 sends one message
    to each of the ranks 1 to [size - 1], in that order, and the message
    for a rank is the row of its index; so every other member receives
    its message: none of them is left in its receive. *)
Theorem every_member_served (w : nat → world) (argv : list cstring)
    (size : nat) (fp : list ascii) (t : list event)
    (commands : list cstring) (n : nat) :
  length argv = 2%nat →
  strchr (argv !!! 1%nat) STAR = None →
  fopen (w 0%nat) (argv !!! 1%nat) = Some fp →
  read_commands (S (length fp)) (replicate MAX_RANKS []) 0 fp
    = (t, Next (commands, n)) →
  (size ≤ MAX_RANKS)%nat →
  dests_of (run_member w argv size 0).1 = seq 1 (size - 1)
  ∧ ∀ rank, (1 ≤ rank < size)%nat →
            head (run_member w argv size rank).1 = Some (Recv (commands !!! rank))
            ∧ (run_member w argv size rank).2 ≠ Waiting.
Proof.
  intros Hargc Hstar Hopen Hread Hsize.
  pose proof (read_commands_bound _ _ _ _ _ _ _ (Nat.le_0_l _) Hread)
    as [_ Hlen].
  rewrite length_replicate in Hlen.
  pose proof (read_commands_events _ _ _ _ _ _ Hread) as Ht.
  pose proof (distribute_coordinator (w 0%nat) (argv !!! 1%nat) size None
                fp t commands n Hopen Hread ltac:(lia)) as Hd.
  split.
  - unfold run_member. cbn [decide]. rewrite main_roster by done.
    change (if decide (0%nat = 0%nat) then None else _) with (@None cstring).
    rewrite Hd.
    assert (∀ tail, dests_of tail = [] →
              dests_of
                ((t ++ (if decide (size < n)%nat
                        then [ExtraIgnored n size] else [])
                    ++ ((λ i, Send i (commands !!! i)) <$> seq 1 (size - 1)))
                 ++ tail) = seq 1 (size - 1)) as Htail.
    { intros tail Hnil.
      by rewrite dests_of_app, Hnil, app_nil_r, dests_of_coordinator. }
    destruct (negb (Ascii.eqb (first_byte _) NUL)).
    + destruct (decide (system (w 0%nat) _ ≠ 0)); cbn [fst]; by apply Htail.
    + cbn [fst]. by apply dests_of_coordinator.
  - intros rank Hrank. unfold run_member.
    rewrite decide_False by lia. rewrite sent_to_main by done.
    rewrite Hd. cbn [fst]. rewrite sent_to_coordinator by done.
    rewrite decide_True by lia. rewrite main_roster by done.
    rewrite distribute_member by lia.
    destruct (negb (Ascii.eqb (first_byte _) NUL)); [| done].
    by destruct (decide (system (w rank) _ ≠ 0)).
Qed.

Lemma every_member_served_witness :
  dests_of (run_member (λ _, roster_world scenario_A succeed)
              argv_cmdfile 4 0).1 = [1; 2; 3]%nat.
Proof.
  destruct (read_text_file scenario_A ltac:(by apply text_fileb_ok))
    as (t & commands & Hread & _).
  { left. rewrite MAX_RANKS_eq. vm_compute. lia. }
  exact (proj1 (every_member_served
                  (λ _, roster_world scenario_A succeed) argv_cmdfile 4
                  scenario_A t commands _ eq_refl eq_refl eq_refl Hread
                  ltac:(rewrite MAX_RANKS_eq; lia))).
Defined.

(** X12.  In roster mode with more than MAX_RANKS ranks, when the roster
    opens and the loop ends, rank 0 prints no warning, sends the rows 1
    to MAX_RANKS - 1 to the ranks of their indices, which receive them,
    and then reads [commands[MAX_RANKS]], a row the array does not
    have. *)
Theorem too_many_ranks (w : nat → world) (argv : list cstring)
    (size : nat) (fp : list ascii) (t : list event)
    (commands : list cstring) (n : nat) :
  length argv = 2%nat →
  strchr (argv !!! 1%nat) STAR = None →
  fopen (w 0%nat) (argv !!! 1%nat) = Some fp →
  read_commands (S (length fp)) (replicate MAX_RANKS []) 0 fp
    = (t, Next (commands, n)) →
  (MAX_RANKS < size)%nat →
  run_member w argv size 0
  = (t ++ ((λ i, Send i (commands !!! i)) <$> seq 1 (MAX_RANKS - 1)),
     OutOfBounds MAX_RANKS)
  ∧ ∀ rank, (1 ≤ rank < MAX_RANKS)%nat →
            head (run_member w argv size rank).1
            = Some (Recv (commands !!! rank)).
Proof.
  intros Hargc Hstar Hopen Hread Hsize.
  pose proof (read_commands_events _ _ _ _ _ _ Hread) as Ht.
  pose proof (read_commands_bound _ _ _ _ _ _ _ (Nat.le_0_l _) Hread)
    as [[_ Hn] _].
  pose proof (distribute_past (w 0%nat) (argv !!! 1%nat) size None
                fp t commands n Hopen Hread Hsize) as Hd.
  rewrite (decide_False (P := (size < n)%nat)) in Hd by lia.
  cbn [app] in Hd.
  assert (main (w 0%nat) argv 0 size None
          = (t ++ ((λ i, Send i (commands !!! i)) <$> seq 1 (MAX_RANKS - 1)),
             OutOfBounds MAX_RANKS)) as Hmain.
  { rewrite main_roster by done. by rewrite Hd. }
  split; [exact Hmain |].
  intros rank Hrank. unfold run_member.
  rewrite decide_False by lia. rewrite Hmain. cbn [fst].
  assert (sent_to rank
            (t ++ ((λ i, Send i (commands !!! i)) <$> seq 1 (MAX_RANKS - 1)))
          = Some (commands !!! rank)) as ->.
  { rewrite sent_to_app, (sent_to_fgets _ _ Ht).
    apply (sent_to_sends rank (λ i, commands !!! i)).
    apply elem_of_seq. lia. }
  rewrite main_roster by done. rewrite distribute_member by lia.
  destruct (negb (Ascii.eqb (first_byte _) NUL)); [| done].
  by destruct (decide (system (w rank) _ ≠ 0)).
Qed.

Lemma too_many_ranks_witness :
  (MAX_RANKS < S MAX_RANKS)%nat
  ∧ (run_member (λ _, roster_world two_lines succeed) argv_cmdfile
       (S MAX_RANKS) 0).2 = OutOfBounds MAX_RANKS.
Proof.
  destruct (read_text_file two_lines ltac:(by apply text_fileb_ok))
    as (t & commands & Hread & _).
  { left. rewrite MAX_RANKS_eq. vm_compute. lia. }
  split; [apply Nat.lt_succ_diag_r |].
  exact (f_equal snd
           (proj1 (too_many_ranks
                     (λ _, roster_world two_lines succeed) argv_cmdfile
                     (S MAX_RANKS) two_lines t commands _
                     eq_refl eq_refl eq_refl Hread (Nat.lt_succ_diag_r _)))).
Defined.

(** X13.  In roster mode a member other than rank 0 never opens the
    roster: without a message it stays in its receive; with an empty
    message it runs nothing and returns 0; with any other message it
    announces the message and passes it to [system] as it is. *)
Theorem member_follows_message (w : world) (argv : list cstring)
    (rank size : nat) :
  length argv = 2%nat →
  strchr (argv !!! 1%nat) STAR = None →
  rank ≠ 0%nat →
  main w argv rank size None = ([], Waiting)
  ∧ ∀ buf,
      main w argv rank size (Some buf) =
      if Ascii.eqb (first_byte buf) NUL then ([Recv buf], Return 0)
      else if decide (system w buf ≠ 0) then
        ([Recv buf; ExecutingCommand rank buf; System buf;
          CommandFailed rank (exitcode (system w buf)) buf],
         Abort (exitcode (system w buf)))
      else ([Recv buf; ExecutingCommand rank buf; System buf], Return 0).
Proof.
  intros Hargc Hstar Hrank. split.
  - rewrite main_roster by done. unfold distribute.
    rewrite (decide_False (P := (rank = 0%nat))) by done. rewrite bind_mret.
    by rewrite (decide_False (P := (rank = 0%nat))) by done.
  - intros buf. rewrite main_roster by done.
    rewrite distribute_member by done.
    destruct (Ascii.eqb (first_byte buf) NUL); cbn [negb]; [done |].
    by destruct (decide (system w buf ≠ 0)).
Qed.

Lemma member_follows_message_witness :
  main (roster_world scenario_A succeed) argv_cmdfile 3 4 (Some [])
  = ([Recv []], Return 0).
Proof.
  exact (proj2 (member_follows_message (roster_world scenario_A succeed)
                  argv_cmdfile 3 4 eq_refl eq_refl ltac:(discriminate)) []).
Defined.
